(** * nord-ts: the action-encoding and authentication pipeline

    A shallow embedding of [src/utils.ts], [src/nord/actions.ts] and of
    [NordUser.getNonce], followed by the properties of the scaled-integer
    conversion, the wide split, the length-delimited framing, the action
    builders, the two signing schemes, receipt validation and the nonce
    counter. *)

From Stdlib Require Import ZArith NArith QArith Qpower Qround Bool List Lia.
From Stdlib Require Import Sorted.
From Stdlib Require Import Strings.String Strings.Ascii Strings.Byte.
Import ListNotations.
Local Open Scope Z_scope.

(* ===================================================================== *)
(** ** decimal.js: the arbitrary-precision backend of [utils.ts]

    [decimal.js] is an external dependency.  The embedding covers its
    finite values and the operations [makeToScaledBigUint] calls, with the
    behaviour the library documents: a value is sign, coefficient and
    power-of-ten exponent; the constructor keeps every digit; [pow] and
    [mul] round their result to [precision] significant digits with the
    default rounding mode ROUND_HALF_UP; [truncated] does not round. *)

Module DecimalJs.

(** The value of [mkDecimal s c e] is [(-1)^s * c * 10^e].  The sign is
    kept apart from the coefficient because decimal.js has a negative
    zero. *)
Record Decimal := mkDecimal { neg : bool; coef : N; exp : Z }.

(** The part of [Decimal.clone({...})] that [utils.ts] sets. *)
Record Config := mkConfig { precision : N; toExpPos : Z; toExpNeg : Z }.

Definition ofZ (z : Z) : Decimal := mkDecimal (z <? 0) (Z.abs_N z) 0.

Definition isZero (x : Decimal) : bool := (coef x =? 0)%N.

(** [isNeg] tests the sign field alone, so it is true of [-0]. *)
Definition isNeg (x : Decimal) : bool := neg x.

Fixpoint digits_aux (fuel : nat) (n : N) : N :=
  match fuel with
  | O => 1%N
  | S f => if (n <? 10)%N then 1%N else N.succ (digits_aux f (n / 10))
  end.

(** Number of decimal digits of [n] (1 for zero). *)
Definition digits (n : N) : N := digits_aux (N.to_nat (N.size n)) n.

(** Rounding to [precision] significant digits, ties away from zero. *)
Definition finalise (cfg : Config) (x : Decimal) : Decimal :=
  let sd := digits (coef x) in
  if (sd <=? precision cfg)%N then x
  else
    let k := (sd - precision cfg)%N in
    let q := (coef x / 10 ^ k)%N in
    let r := (coef x mod 10 ^ k)%N in
    mkDecimal (neg x)
              (if (10 ^ k <=? 2 * r)%N then N.succ q else q)
              (exp x + Z.of_N k).

(** [x.pow(n)] for a non-negative integer [n]. *)
Definition pow (cfg : Config) (x : Decimal) (n : N) : Decimal :=
  finalise cfg (mkDecimal (neg x && N.odd n) (coef x ^ n) (exp x * Z.of_N n)).

Definition mul (cfg : Config) (x y : Decimal) : Decimal :=
  finalise cfg (mkDecimal (xorb (neg x) (neg y)) (coef x * coef y) (exp x + exp y)).

(** Integer part, towards zero; exempt from rounding to [precision]. *)
Definition truncated (x : Decimal) : Decimal :=
  if 0 <=? exp x then x
  else mkDecimal (neg x) (coef x / 10 ^ Z.to_N (- exp x)) 0.

(** The coefficient as a signed integer counted in units of [10^m]. *)
Definition unitsAt (m : Z) (x : Decimal) : Z :=
  (if neg x then -1 else 1) * Z.of_N (coef x) * 10 ^ (exp x - m).

Definition greaterThan (x y : Decimal) : bool :=
  let m := Z.min (exp x) (exp y) in
  unitsAt m y <? unitsAt m x.

(** Exponent of the leading digit, the [e] field of decimal.js. *)
Definition sciExponent (x : Decimal) : Z :=
  if isZero x then 0 else Z.of_N (digits (coef x)) + exp x - 1.

(** [BigInt(x.toString())]: [toString] switches to exponential notation
    when the leading exponent reaches [toExpPos] or [toExpNeg], and
    [BigInt] throws a SyntaxError on that notation and on a decimal
    point. *)
Definition toBigInt (cfg : Config) (x : Decimal) : option Z :=
  if (sciExponent x <=? toExpNeg cfg) || (toExpPos cfg <=? sciExponent x)
  then None
  else if 0 <=? exp x then Some (unitsAt 0 x)
  else if (coef x mod 10 ^ Z.to_N (- exp x) =? 0)%N
       then Some ((if neg x then -1 else 1)
                  * Z.of_N (coef x / 10 ^ Z.to_N (- exp x)))
       else None.

(** The exact rational value. *)
Definition toQ (x : Decimal) : Q :=
  (inject_Z ((if neg x then -1 else 1) * Z.of_N (coef x)) * Qpower 10 (exp x))%Q.

End DecimalJs.
Export DecimalJs.

(* ===================================================================== *)
(** ** Errors and the result monad

    Every [throw] of the sources is one constructor; the comment gives the
    message it carries.  A rejected promise is an [Err] as well: the
    pipeline awaits each step before the next one starts. *)

Definition bytes := list byte.

Inductive Error :=
  | NumberIsNegative                       (* "Number is negative" *)
  | PrecisionLoss (dec : Decimal)          (* "Precision loss when converting ..." *)
  | IntegerOutOfRange (scaled Max : Decimal) (* "Integer is out of range: ..." *)
  | BigIntSyntaxError                      (* thrown by BigInt(...) *)
  | NegativeNumber (value : Z)             (* "Negative number (...)" *)
  | U128Overflow (value : Z)               (* "U128 overflow (...)" *)
  | PayloadTooLarge (size : Z)             (* "... is greater than max payload size ..." *)
  | BufferTooShort (size remaining : Z)    (* "... is greater than remaining buffer size ..." *)
  | Bls12_381Unsupported                   (* "Cannot create a user using Bls12_381, ..." *)
  | Ed25519KeyLength                       (* "Ed25519 pubkeys must be 32 length." *)
  | Secp256k1KeyLength                     (* "Secp256k1 pubkeys must be 33 length." *)
  | AssertionViolated (message : string)   (* [assert] *)
  | InvalidFillMode                        (* "Invalid fill mode" *)
  | WithdrawAmountNotPositive              (* "Withdraw amount must be positive" *)
  | ServerError (actionErrorDesc : string) (code : Z)
                                           (* "Could not ..., reason: ..." *)
  | UnexpectedReceiptKind (case : option string)
                                           (* "Unexpected receipt kind ..." *)
  | AssertUInt32 (value : Z)               (* BinaryWriter.uint32 on a non-uint32 *)
  | PrematureEOF                           (* BinaryReader: RangeError *)
  | InvalidVarint                          (* BinaryReader: "invalid varint" *)
  | InvalidBytesLike (value : string)      (* ethers.getBytes *)
  | External (what : string).              (* raised by an injected capability *)

Inductive result (A : Type) : Type :=
  | Ok (a : A)
  | Err (e : Error).
Arguments Ok {A} a.
Arguments Err {A} e.

Definition bind {A B : Type} (c : result A) (k : A -> result B) : result B :=
  match c with
  | Ok a => k a
  | Err e => Err e
  end.

Declare Scope result_scope.
Delimit Scope result_scope with result.
Notation "x <- c ;; k" := (bind c (fun x => k))
  (at level 61, c at next level, right associativity) : result_scope.
Notation "' pat <- c ;; k" := (bind c (fun x => match x with pat => k end))
  (at level 61, pat pattern, c at next level, right associativity) : result_scope.
Local Open Scope result_scope.

Definition isOk {A : Type} (r : result A) : bool :=
  match r with Ok _ => true | Err _ => false end.

(** A byte as the number a [Uint8Array] element holds, and back (stores
    wrap modulo 256). *)
Definition byteToZ (b : byte) : Z := Z.of_N (Byte.to_N b).

Definition byteOfZ (z : Z) : byte :=
  match Byte.of_N (Z.to_N (z mod 256)) with
  | Some b => b
  | None => x00
  end.

Definition byteLength (b : bytes) : Z := Z.of_nat (List.length b).

(** [Uint8Array.prototype.slice(start, end)] for [0 <= start <= end]. *)
Definition slice (b : bytes) (start stop : Z) : bytes :=
  firstn (Z.to_nat (stop - start)) (skipn (Z.to_nat start) b).

(* ===================================================================== *)
(** ** @bufbuild/protobuf/wire: the varint length prefix

    [BinaryWriter.uint32] and [BinaryReader.uint32] belong to an external
    package; they are embedded as the protobuf base-128 little-endian
    varint they implement. *)

Module Wire.

(** [while (value > 0x7f) { push((value & 0x7f) | 0x80); value >>>= 7 }
    push(value)]: a 32-bit value leaves the loop after at most four
    rounds. *)
Fixpoint varint32write (rounds : nat) (value : Z) : bytes :=
  match rounds with
  | O => [byteOfZ value]
  | S r =>
      if 127 <? value
      then byteOfZ (Z.lor (Z.land value 127) 128)
             :: varint32write r (Z.shiftr value 7)
      else [byteOfZ value]
  end.

(** [new BinaryWriter().uint32(value).finish()]. *)
Definition writeUint32 (value : Z) : result bytes :=
  if (0 <=? value) && (value <=? 4294967295)
  then Ok (varint32write 4 value)
  else Err (AssertUInt32 value).

(** [buf[pos]] used under a bit mask: an index past the end reads
    [undefined], which the mask turns into 0. *)
Definition bufAt (buf : bytes) (pos : nat) : Z :=
  match nth_error buf pos with
  | Some b => byteToZ b
  | None => 0
  end.

Definition assertBounds (buf : bytes) (pos : nat) (value : Z)
  : result (Z * nat) :=
  if (List.length buf <? pos)%nat then Err PrematureEOF else Ok (value, pos).

(** The bytes six to ten of an over-long varint are read and dropped. *)
Fixpoint skipHighBytes (rounds : nat) (buf : bytes) (pos : nat) (b : Z)
  : Z * nat :=
  match rounds with
  | O => (b, pos)
  | S r =>
      if Z.land b 128 =? 0 then (b, pos)
      else skipHighBytes r buf (S pos) (bufAt buf pos)
  end.

(** [BinaryReader.uint32] from position [pos]: the value read and the
    position after it. *)
Definition readUint32 (buf : bytes) (pos : nat) : result (Z * nat) :=
  let b0 := bufAt buf pos in
  let r0 := Z.land b0 127 in
  if Z.land b0 128 =? 0 then assertBounds buf (pos + 1) r0 else
  let b1 := bufAt buf (pos + 1) in
  let r1 := Z.lor r0 (Z.shiftl (Z.land b1 127) 7) in
  if Z.land b1 128 =? 0 then assertBounds buf (pos + 2) r1 else
  let b2 := bufAt buf (pos + 2) in
  let r2 := Z.lor r1 (Z.shiftl (Z.land b2 127) 14) in
  if Z.land b2 128 =? 0 then assertBounds buf (pos + 3) r2 else
  let b3 := bufAt buf (pos + 3) in
  let r3 := Z.lor r2 (Z.shiftl (Z.land b3 127) 21) in
  if Z.land b3 128 =? 0 then assertBounds buf (pos + 4) r3 else
  let b4 := bufAt buf (pos + 4) in
  let r4 := Z.lor r3 (Z.shiftl (Z.land b4 15) 28) in
  let '(b, pos') := skipHighBytes 5 buf (pos + 5) b4 in
  if Z.land b 128 =? 0 then assertBounds buf pos' r4
  else Err InvalidVarint.

End Wire.

(* ===================================================================== *)
(** ** types.ts *)

Module Types.

Inductive KeyType := Ed25519 | Secp256k1 | Bls12_381.

Inductive Side := Ask | Bid.

(** A numeric enum: a member is the number of its position, and a value
    of the type is at run time whatever number the caller passes;
    [fillModeToProtoFillMode] has a branch for the numbers that are no
    member. *)
Definition FillMode := Z.
Definition Limit : FillMode := 0.
Definition PostOnly : FillMode := 1.
Definition ImmediateOrCancel : FillMode := 2.
Definition FillOrKill : FillMode := 3.

(** [===] on two members of the enum. *)
Definition keyTypeEqb (a b : KeyType) : bool :=
  match a, b with
  | Ed25519, Ed25519 | Secp256k1, Secp256k1 | Bls12_381, Bls12_381 => true
  | _, _ => false
  end.

End Types.

(* ===================================================================== *)
(** ** gen/nord: the wire messages *)

(** Modelled from the spec: the generated schema module [src/gen/nord]
    (the ts-proto output for [nord.proto]) is not among the sources.  The
    messages below are the tagged unions of the data model, with the
    fields that [actions.ts] and [tests/utils.spec.ts] write and read; a
    receipt kind the sources never name is [otherResult] with its tag.
    The schema encoder and decoder stay abstract ([MessageFns]). *)
Module proto.

Inductive Side := ASK | BID.

Inductive FillMode := LIMIT | POST_ONLY | IMMEDIATE_OR_CANCEL | FILL_OR_KILL.

Record U128 := mkU128 { lo : Z; hi : Z }.

Module CreateSession.
Record t := mk
  { userPubkey : bytes; blstPubkey : bytes; expiryTimestamp : Z }.
End CreateSession.

Module RevokeSession.
Record t := mk { sessionId : Z }.
End RevokeSession.

Module Withdraw.
Record t := mk { sessionId : Z; tokenId : Z; amount : Z }.
End Withdraw.

Module PlaceOrder.
Record t := mk
  { sessionId : Z;
    senderAccountId : option Z;
    marketId : Z;
    side : Side;
    fillMode : FillMode;
    isReduceOnly : bool;
    price : Z;
    size : Z;
    quoteSize : option U128;
    clientOrderId : option Z;
    delegatorAccountId : option Z }.
End PlaceOrder.

Module CancelOrderById.
Record t := mk
  { orderId : Z;
    sessionId : Z;
    senderAccountId : option Z;
    delegatorAccountId : option Z }.
End CancelOrderById.

Module Transfer.
Record t := mk
  { sessionId : Z;
    fromAccountId : Z;
    toAccountId : option Z;
    tokenId : Z;
    amount : Z }.
End Transfer.

Inductive ActionKind :=
  | createSession (value : CreateSession.t)
  | revokeSession (value : RevokeSession.t)
  | withdraw (value : Withdraw.t)
  | placeOrder (value : PlaceOrder.t)
  | cancelOrderById (value : CancelOrderById.t)
  | transfer (value : Transfer.t).

Record Action := mkAction
  { currentTimestamp : Z; nonce : Z; kind : option ActionKind }.

Module Posted.
Record t := mk { orderId : Z }.
End Posted.

Module Transferred.
Record t := mk { accountCreated : bool; toAccountId : Z }.
End Transferred.

Inductive ReceiptKind :=
  | err (value : Z)
  | createSessionResult (sessionId : Z)
  | placeOrderResult (posted : option Posted.t)
  | cancelOrderResult (orderId : Z)
  | transferred (value : Transferred.t)
  | otherResult (case : string).

Record Receipt := mkReceipt { receiptKind : option ReceiptKind }.

(** [resp.kind?.$case]. *)
Definition caseOf (k : option ReceiptKind) : option string :=
  match k with
  | None => None
  | Some (err _) => Some "err"%string
  | Some (createSessionResult _) => Some "createSessionResult"%string
  | Some (placeOrderResult _) => Some "placeOrderResult"%string
  | Some (cancelOrderResult _) => Some "cancelOrderResult"%string
  | Some (transferred _) => Some "transferred"%string
  | Some (otherResult c) => Some c
  end.

(** The interface [MessageFns<T>] of a generated message: [encode(m)
    .finish()] and [decode(bytes)], either of which may throw. *)
Class MessageFns (T : Type) := mkMessageFns
  { encode : T -> result bytes;
    decode : bytes -> result T }.

End proto.

(* ===================================================================== *)
(** ** utils.ts *)

Module Utils.

Definition SESSION_TTL : Z := 10 * 60 * 1000 * 10000.

Definition ZERO_DECIMAL : Decimal := ofZ 0.

Definition MAX_PAYLOAD_SIZE : Z := 100 * 1024.

Definition assert (predicate : bool) (message : string) : result unit :=
  if predicate then Ok tt else Err (AssertionViolated message).

Definition optMap {T U : Type} (value : option T) (mapFn : T -> U)
  : option U :=
  match value with
  | Some v => Some (mapFn v)
  | None => None
  end.

Record ScaleParams := mkScaleParams { precision : N; exponent : Z; bits : Z }.

(** [x] is the decimal the constructor [new Dec(x)] yields (finite
    values); [decimals] is a non-negative integer count. *)
Definition makeToScaledBigUint (params : ScaleParams)
  : Decimal -> N -> result Z :=
  let Dec := mkConfig (precision params) (exponent params) (- exponent params) in
  let Ten := ofZ 10 in
  let Max := ofZ (Z.shiftl 1 (bits params) - 1) in
  fun x decimals =>
    let dec := x in
    if isZero dec then Ok 0
    else if isNeg dec then Err NumberIsNegative
    else
      let scaled := truncated (mul Dec (pow Dec Ten decimals) dec) in
      if isZero scaled then Err (PrecisionLoss dec)
      else if greaterThan scaled Max then Err (IntegerOutOfRange scaled Max)
      else match toBigInt Dec scaled with
           | Some z => Ok z
           | None => Err BigIntSyntaxError
           end.

Definition toScaledU64 : Decimal -> N -> result Z :=
  makeToScaledBigUint (mkScaleParams 20 28 64).

Definition toScaledU128 : Decimal -> N -> result Z :=
  makeToScaledBigUint (mkScaleParams 40 56 128).

Definition U64_MAX : Z := Z.shiftl 1 64 - 1.
Definition U128_MAX : Z := Z.shiftl 1 128 - 1.

Definition bigIntToProtoU128 (value : Z) : result proto.U128 :=
  if value <? 0 then Err (NegativeNumber value)
  else if U128_MAX <? value then Err (U128Overflow value)
  else Ok (proto.mkU128 (Z.land value U64_MAX)
                        (Z.land (Z.shiftr value 64) U64_MAX)).

Section LengthDelimited.
Context {T : Type} (coder : proto.MessageFns T).

Definition encodeLengthDelimited (message : T) : result bytes :=
  encoded <- proto.encode message ;;
  if MAX_PAYLOAD_SIZE <? byteLength encoded
  then Err (PayloadTooLarge (byteLength encoded))
  else
    encodedLength <- Wire.writeUint32 (byteLength encoded) ;;
    Ok (encodedLength ++ encoded).

Definition decodeLengthDelimited (buf : bytes) : result T :=
  ' (msgLength, pos) <- Wire.readUint32 buf 0 ;;
  let startsAt := Z.of_nat pos in
  if MAX_PAYLOAD_SIZE <? msgLength
  then Err (PayloadTooLarge msgLength)
  else if byteLength buf <? startsAt + msgLength
  then Err (BufferTooShort msgLength (byteLength buf - startsAt))
  else proto.decode (slice buf startsAt (startsAt + msgLength)).

End LengthDelimited.

Definition checkPubKeyLength (keyType : Types.KeyType) (len : Z)
  : result unit :=
  if Types.keyTypeEqb keyType Types.Bls12_381
  then Err Bls12_381Unsupported
  else if negb (len =? 32) && Types.keyTypeEqb keyType Types.Ed25519
  then Err Ed25519KeyLength
  else if negb (len =? 33) && Types.keyTypeEqb keyType Types.Secp256k1
  then Err Secp256k1KeyLength
  else Ok tt.

End Utils.

(* ===================================================================== *)
(** ** ethers: hex strings

    [walletSignFn] resolves to the serialized signature, a hex string with
    the prefix 0x; [ethers.getBytes] accepts exactly the strings that
    match [/^0x(?:[0-9a-f][0-9a-f])*$/i]: the prefix and pairs of hex
    digits, letters in either case, the x of the prefix included. *)

Module Ethers.

Definition hexDigitValue (c : ascii) : option N :=
  let n := N_of_ascii c in
  if ((48 <=? n) && (n <=? 57))%N then Some (n - 48)%N
  else if ((97 <=? n) && (n <=? 102))%N then Some (n - 87)%N
  else if ((65 <=? n) && (n <=? 70))%N then Some (n - 55)%N
  else None.

Fixpoint hexPairs (s : string) : option bytes :=
  match s with
  | EmptyString => Some []
  | String a (String b rest) =>
      match hexDigitValue a, hexDigitValue b, hexPairs rest with
      | Some h, Some l, Some tl => Some (byteOfZ (Z.of_N (16 * h + l)) :: tl)
      | _, _, _ => None
      end
  | String _ EmptyString => None
  end.

Definition getBytes (value : string) : result bytes :=
  match value with
  | String "0" (String x rest) =>
      if (Ascii.eqb x "x" || Ascii.eqb x "X")%bool then
        match hexPairs rest with
        | Some b => Ok b
        | None => Err (InvalidBytesLike value)
        end
      else Err (InvalidBytesLike value)
  | _ => Err (InvalidBytesLike value)
  end.

Definition hexChar (n : N) : ascii :=
  if (n <? 10)%N then ascii_of_N (48 + n) else ascii_of_N (87 + n).

Fixpoint hexOfBytes (b : bytes) : string :=
  match b with
  | [] => EmptyString
  | x :: tl =>
      String (hexChar (Byte.to_N x / 16))
             (String (hexChar (Byte.to_N x mod 16)) (hexOfBytes tl))
  end.

(** [ethers.hexlify]: how a signature of the given bytes is serialized. *)
Definition hexlify (b : bytes) : string :=
  String "0" (String "x" (hexOfBytes b)).

(** [s.slice(0, -n)] of a JavaScript string. *)
Definition sliceDropLast (s : string) (n : nat) : string :=
  substring 0 (String.length s - n) s.

End Ethers.

(* ===================================================================== *)
(** ** nord/actions.ts

    [sendFn], [signFn] and [walletSignFn] are the injected capabilities; an
    awaited promise is the [result] it settles to.  A [BigIntValue]
    argument is the integer [BigInt(...)] makes of it, a [Decimal.Value]
    the decimal [new Dec(...)] makes of it. *)

Module Actions.
Import Utils.

Definition fillModeToProtoFillMode (x : Types.FillMode)
  : result proto.FillMode :=
  if x =? Types.Limit then Ok proto.LIMIT
  else if x =? Types.PostOnly then Ok proto.POST_ONLY
  else if x =? Types.ImmediateOrCancel then Ok proto.IMMEDIATE_OR_CANCEL
  else if x =? Types.FillOrKill then Ok proto.FILL_OR_KILL
  else Err InvalidFillMode.

Definition sessionSign (signFn : bytes -> result bytes) (message : bytes)
  : result bytes :=
  signature <- signFn message ;;
  Ok (message ++ signature).

Definition walletSign (walletSignFn : bytes -> result string)
  (message : bytes) : result bytes :=
  signature <- walletSignFn message ;;
  stripped <- Ethers.getBytes (Ethers.sliceDropLast signature 2) ;;
  Ok (message ++ stripped).

Module CreateSessionParams.
Record t := mk
  { userPubkey : bytes; sessionPubkey : bytes; expiryTimestamp : option Z }.
End CreateSessionParams.

Module RevokeSessionParams.
Record t := mk { sessionId : Z }.
End RevokeSessionParams.

Module WithdrawParams.
Record t := mk
  { sizeDecimals : N; sessionId : Z; tokenId : Z; amount : Decimal }.
End WithdrawParams.

Module PlaceOrderParams.
Record t := mk
  { sessionId : Z;
    senderId : option Z;
    liquidateeId : option Z;
    sizeDecimals : N;
    priceDecimals : N;
    marketId : Z;
    side : Types.Side;
    fillMode : Types.FillMode;
    isReduceOnly : bool;
    size : option Decimal;
    price : option Decimal;
    quoteSize : option Decimal;
    clientOrderId : option Z }.
End PlaceOrderParams.

Module CancelOrderParams.
Record t := mk
  { sessionId : Z; senderId : option Z; orderId : Z;
    liquidateeId : option Z }.
End CancelOrderParams.

Module TransferParams.
Record t := mk
  { sessionId : Z;
    fromAccountId : Z;
    toAccountId : option Z;
    tokenId : Z;
    tokenDecimals : N;
    amount : Decimal }.
End TransferParams.

(** [x ?? 0] on an optional decimal. *)
Definition orZero (x : option Decimal) : Decimal :=
  match x with
  | Some d => d
  | None => ofZ 0
  end.

(** *** The action each [...Impl] composes before it calls [sendAction] *)

Definition createSessionAction (currentTimestamp nonce : Z)
  (params : CreateSessionParams.t) : result proto.Action :=
  _ <- checkPubKeyLength Types.Secp256k1
         (byteLength (CreateSessionParams.userPubkey params)) ;;
  _ <- checkPubKeyLength Types.Ed25519
         (byteLength (CreateSessionParams.sessionPubkey params)) ;;
  expiry <- match CreateSessionParams.expiryTimestamp params with
            | Some expiry =>
                _ <- assert (currentTimestamp <? expiry)
                       "Cannot set expiry timestamp in the past" ;;
                Ok expiry
            | None => Ok (currentTimestamp + SESSION_TTL)
            end ;;
  Ok (proto.mkAction currentTimestamp nonce
        (Some (proto.createSession
                 (proto.CreateSession.mk
                    (CreateSessionParams.userPubkey params)
                    (CreateSessionParams.sessionPubkey params)
                    expiry)))).

Definition revokeSessionAction (currentTimestamp nonce : Z)
  (params : RevokeSessionParams.t) : result proto.Action :=
  Ok (proto.mkAction currentTimestamp nonce
        (Some (proto.revokeSession
                 (proto.RevokeSession.mk
                    (RevokeSessionParams.sessionId params))))).

Definition withdrawAction (currentTimestamp nonce : Z)
  (params : WithdrawParams.t) : result proto.Action :=
  amount <- toScaledU64 (WithdrawParams.amount params)
              (WithdrawParams.sizeDecimals params) ;;
  if amount <=? 0 then Err WithdrawAmountNotPositive
  else
    Ok (proto.mkAction currentTimestamp nonce
          (Some (proto.withdraw
                   (proto.Withdraw.mk (WithdrawParams.sessionId params)
                      (WithdrawParams.tokenId params) amount)))).

Definition placeOrderAction (currentTimestamp nonce : Z)
  (params : PlaceOrderParams.t) : result proto.Action :=
  price <- toScaledU64 (orZero (PlaceOrderParams.price params))
             (PlaceOrderParams.priceDecimals params) ;;
  size <- toScaledU64 (orZero (PlaceOrderParams.size params))
            (PlaceOrderParams.sizeDecimals params) ;;
  quoteSize <- toScaledU128 (orZero (PlaceOrderParams.quoteSize params))
                 (PlaceOrderParams.priceDecimals params
                  + PlaceOrderParams.sizeDecimals params)%N ;;
  fillMode <- fillModeToProtoFillMode (PlaceOrderParams.fillMode params) ;;
  quoteSizeU128 <- bigIntToProtoU128 quoteSize ;;
  Ok (proto.mkAction currentTimestamp nonce
        (Some (proto.placeOrder
                 {| proto.PlaceOrder.sessionId := PlaceOrderParams.sessionId params;
                    proto.PlaceOrder.senderAccountId := PlaceOrderParams.senderId params;
                    proto.PlaceOrder.marketId := PlaceOrderParams.marketId params;
                    proto.PlaceOrder.side :=
                      match PlaceOrderParams.side params with
                      | Types.Bid => proto.BID
                      | Types.Ask => proto.ASK
                      end;
                    proto.PlaceOrder.fillMode := fillMode;
                    proto.PlaceOrder.isReduceOnly := PlaceOrderParams.isReduceOnly params;
                    proto.PlaceOrder.price := price;
                    proto.PlaceOrder.size := size;
                    proto.PlaceOrder.quoteSize := Some quoteSizeU128;
                    proto.PlaceOrder.clientOrderId :=
                      optMap (PlaceOrderParams.clientOrderId params) (fun x => x);
                    proto.PlaceOrder.delegatorAccountId :=
                      PlaceOrderParams.liquidateeId params |}))).

Definition cancelOrderAction (currentTimestamp nonce : Z)
  (params : CancelOrderParams.t) : result proto.Action :=
  Ok (proto.mkAction currentTimestamp nonce
        (Some (proto.cancelOrderById
                 {| proto.CancelOrderById.orderId := CancelOrderParams.orderId params;
                    proto.CancelOrderById.sessionId := CancelOrderParams.sessionId params;
                    proto.CancelOrderById.senderAccountId := CancelOrderParams.senderId params;
                    proto.CancelOrderById.delegatorAccountId :=
                      CancelOrderParams.liquidateeId params |}))).

Definition transferAction (currentTimestamp nonce : Z)
  (params : TransferParams.t) : result proto.Action :=
  amount <- toScaledU64 (TransferParams.amount params)
              (TransferParams.tokenDecimals params) ;;
  Ok (proto.mkAction currentTimestamp nonce
        (Some (proto.transfer
                 {| proto.Transfer.sessionId := TransferParams.sessionId params;
                    proto.Transfer.fromAccountId := TransferParams.fromAccountId params;
                    proto.Transfer.toAccountId := TransferParams.toAccountId params;
                    proto.Transfer.tokenId := TransferParams.tokenId params;
                    proto.Transfer.amount := amount |}))).

Section Submit.
Context (actionCoder : proto.MessageFns proto.Action)
        (receiptCoder : proto.MessageFns proto.Receipt).
Variable sendFn : bytes -> result bytes.

Definition sendAction (makeSignedMessage : bytes -> result bytes)
  (action : proto.Action) (actionErrorDesc : string)
  : result proto.Receipt :=
  encoded <- encodeLengthDelimited actionCoder action ;;
  body <- makeSignedMessage encoded ;;
  rawResp <- sendFn body ;;
  resp <- decodeLengthDelimited receiptCoder rawResp ;;
  match proto.receiptKind resp with
  | Some (proto.err value) => Err (ServerError actionErrorDesc value)
  | _ => Ok resp
  end.

Definition createSessionImpl (walletSignFn : bytes -> result string)
  (currentTimestamp nonce : Z) (params : CreateSessionParams.t)
  : result Z :=
  action <- createSessionAction currentTimestamp nonce params ;;
  resp <- sendAction (fun m => walletSign walletSignFn m) action
            "create a new session" ;;
  match proto.receiptKind resp with
  | Some (proto.createSessionResult sessionId) => Ok sessionId
  | k => Err (UnexpectedReceiptKind (proto.caseOf k))
  end.

Definition revokeSessionImpl (walletSignFn : bytes -> result string)
  (currentTimestamp nonce : Z) (params : RevokeSessionParams.t)
  : result unit :=
  action <- revokeSessionAction currentTimestamp nonce params ;;
  _ <- sendAction (fun m => walletSign walletSignFn m) action
         "create a new session" ;;
  Ok tt.

Definition withdrawImpl (signFn : bytes -> result bytes)
  (currentTimestamp nonce : Z) (params : WithdrawParams.t)
  : result unit :=
  action <- withdrawAction currentTimestamp nonce params ;;
  _ <- sendAction (fun m => sessionSign signFn m) action "withdraw" ;;
  Ok tt.

Definition placeOrderImpl (signFn : bytes -> result bytes)
  (currentTimestamp nonce : Z) (params : PlaceOrderParams.t)
  : result (option Z) :=
  action <- placeOrderAction currentTimestamp nonce params ;;
  resp <- sendAction (fun m => sessionSign signFn m) action
            "place the order" ;;
  match proto.receiptKind resp with
  | Some (proto.placeOrderResult posted) =>
      Ok (optMap posted proto.Posted.orderId)
  | k => Err (UnexpectedReceiptKind (proto.caseOf k))
  end.

Definition cancelOrderImpl (signFn : bytes -> result bytes)
  (currentTimestamp nonce : Z) (params : CancelOrderParams.t)
  : result Z :=
  action <- cancelOrderAction currentTimestamp nonce params ;;
  resp <- sendAction (fun m => sessionSign signFn m) action
            "cancel the order" ;;
  match proto.receiptKind resp with
  | Some (proto.cancelOrderResult orderId) => Ok orderId
  | k => Err (UnexpectedReceiptKind (proto.caseOf k))
  end.

Definition transferImpl (signFn : bytes -> result bytes)
  (currentTimestamp nonce : Z) (params : TransferParams.t)
  : result (option Z) :=
  action <- transferAction currentTimestamp nonce params ;;
  resp <- sendAction (fun m => sessionSign signFn m) action
            "transfer asset to other account" ;;
  match proto.receiptKind resp with
  | Some (proto.transferred value) =>
      if proto.Transferred.accountCreated value
      then Ok (Some (proto.Transferred.toAccountId value))
      else Ok None
  | k => Err (UnexpectedReceiptKind (proto.caseOf k))
  end.

End Submit.

End Actions.

(* ===================================================================== *)
(** ** NordUser.getNonce

    The two fields of the user object the method reads and writes, passed
    explicitly; [now] is what [Date.now()] returns at the call. *)

Module NordUser.

Record NonceState := mkNonceState { lastTs : Q; lastNonce : Z }.

(** The fields as the class initialises them. *)
Definition initial : NonceState := mkNonceState 0 0.

Definition getNonce (now : Z) (this : NonceState) : Z * NonceState :=
  let ts := (inject_Z now / 1000)%Q in
  let this' :=
    if Qeq_bool ts (lastTs this)
    then mkNonceState (lastTs this) (lastNonce this + 1)
    else mkNonceState ts 0 in
  (lastNonce this', this').

End NordUser.

(* ===================================================================== *)
(** ** The callers: lookups, the user object, queries and the subscriber *)

(** What the code above the action layer throws besides the errors of
    [utils.ts] and [actions.ts]. *)
Inductive Failure :=
  | MarketNotFound (marketId : Z)   (* "The market with marketId=... not found" *)
  | TokenNotFound (tokenId : Z)     (* "The token with tokenId=... not found" *)
  | OptionalEmpty (message : string) (* [optExpect] *)
  | UndefinedProperty               (* TypeError: property read on [undefined] *)
  | ActionFailed (e : Error).       (* thrown by [utils.ts] or [actions.ts] *)

Inductive outcome (A : Type) : Type :=
  | Returned (a : A)
  | Thrown (f : Failure).
Arguments Returned {A} a.
Arguments Thrown {A} f.

Definition ofResult {A : Type} (r : result A) : outcome A :=
  match r with
  | Ok a => Returned a
  | Err e => Thrown (ActionFailed e)
  end.

(** *** types.ts: [Market] and [Token] *)

Module Market.
Record t := mk
  { symbol : string;
    baseTokenId : Z;
    quoteTokenId : Z;
    priceDecimals : N;
    sizeDecimals : N }.
End Market.

Module Token.
Record t := mk
  { symbol : string; ethAddr : string; decimals : N; tokenId : Z }.
End Token.

(** *** utils.ts: [optExpect], [findMarket], [findToken]

    The identifiers are integers; [markets[marketId]] is the array read,
    which is [undefined] ([None]) outside the array. *)

Module Lookup.

Definition optExpect {T : Type} (value : option T) (message : string)
  : outcome T :=
  match value with
  | None => Thrown (OptionalEmpty message)
  | Some v => Returned v
  end.

Definition findMarket (markets : list Market.t) (marketId : Z)
  : outcome (option Market.t) :=
  if (marketId <? 0) || (Z.of_nat (List.length markets) - 1 <? marketId)
  then Thrown (MarketNotFound marketId)
  else Returned (nth_error markets (Z.to_nat marketId)).

Definition findToken (tokens : list Token.t) (tokenId : Z)
  : outcome (option Token.t) :=
  if (tokenId <? 0) || (Z.of_nat (List.length tokens) - 1 <? tokenId)
  then Thrown (TokenNotFound tokenId)
  else Returned (nth_error tokens (Z.to_nat tokenId)).

End Lookup.

(** *** NordImpl.ts *)

Module NordImpl.

(** [DefaultNordImpl.getTimestamp]: [BigInt(Math.floor(Date.now() / 1000))],
    with [now] the clock reading. *)
Definition getTimestamp (now : Z) : Z := now / 1000.

End NordImpl.

(** *** NordUser: the methods that submit actions

    A user object is passed explicitly and returned with the fields the
    method wrote.  [accountIds] is a reference into a store of arrays:
    [clone] copies the reference, not the array.  Each method reads the
    clock twice, [now1] in [getTimestamp()] and [now2] in [getNonce()];
    arguments are evaluated left to right, so the nonce is taken before
    the parameter object is built.  [balances] and [orders] are one
    abstract component that [fetchInfo] reloads over the network. *)

Module NordUserApi.

Record Nord := mkNord
  { webServerUrl : string;
    markets : list Market.t;
    tokens : list Token.t }.



Module PlaceOrderArgs.
Record t := mk
  { marketId : Z;
    side : Types.Side;
    fillMode : Types.FillMode;
    isReduceOnly : bool;
    size : option Decimal;
    price : option Decimal;
    quoteSize : option Decimal;
    accountId : option Z }.
End PlaceOrderArgs.

Section Methods.
Context (actionCoder : proto.MessageFns proto.Action)
        (receiptCoder : proto.MessageFns proto.Receipt).
(** [makeSendHttp]: the POST to [serverUrl + "/action"]. *)
Variable makeSendHttp : string -> bytes -> result bytes.
Variable Books : Type.
Variable emptyBooks : Books.
(** The requests of [fetchInfo] for the given account ids, applied to the
    object's balances and orders. *)
Variable loadInfo : list Z -> Books -> result Books.

Record t := mkUser
  { nord : Nord;
    walletSignFn : bytes -> result string;
    sessionSignFn : bytes -> result bytes;
    books : Books;
    accountIds : option nat;
    sessionId : option Z;
    publicKey : option bytes;
    nonce : NordUser.NonceState }.

Definition withNonce (this : t) (n : NordUser.NonceState) : t :=
  mkUser (nord this) (walletSignFn this) (sessionSignFn this) (books this)
    (accountIds this) (sessionId this) (publicKey this) n.



Definition placeOrder (now1 now2 : Z) (params : PlaceOrderArgs.t) (this : t)
  : outcome (option Z) * t :=
  match Lookup.findMarket (markets (nord this)) (PlaceOrderArgs.marketId params) with
  | Thrown f => (Thrown f, this)
  | Returned market =>
      let currentTimestamp := NordImpl.getTimestamp now1 in
      let '(nonce', st) := NordUser.getNonce now2 (nonce this) in
      let this' := withNonce this st in
      match Lookup.optExpect (sessionId this) "No session" with
      | Thrown f => (Thrown f, this')
      | Returned sid =>
          match market with
          | None => (Thrown UndefinedProperty, this')
          | Some m =>
              (ofResult
                 (Actions.placeOrderImpl actionCoder receiptCoder
                    (makeSendHttp (webServerUrl (nord this)))
                    (sessionSignFn this) currentTimestamp nonce'
                    {| Actions.PlaceOrderParams.sessionId := sid;
                       Actions.PlaceOrderParams.senderId :=
                         PlaceOrderArgs.accountId params;
                       Actions.PlaceOrderParams.liquidateeId := None;
                       Actions.PlaceOrderParams.sizeDecimals :=
                         Market.sizeDecimals m;
                       Actions.PlaceOrderParams.priceDecimals :=
                         Market.priceDecimals m;
                       Actions.PlaceOrderParams.marketId :=
                         PlaceOrderArgs.marketId params;
                       Actions.PlaceOrderParams.side :=
                         PlaceOrderArgs.side params;
                       Actions.PlaceOrderParams.fillMode :=
                         PlaceOrderArgs.fillMode params;
                       Actions.PlaceOrderParams.isReduceOnly :=
                         PlaceOrderArgs.isReduceOnly params;
                       Actions.PlaceOrderParams.size :=
                         PlaceOrderArgs.size params;
                       Actions.PlaceOrderParams.price :=
                         PlaceOrderArgs.price params;
                       Actions.PlaceOrderParams.quoteSize :=
                         PlaceOrderArgs.quoteSize params;
                       Actions.PlaceOrderParams.clientOrderId := None |}),
               this')
          end
      end
  end.



End Methods.

End NordUserApi.

(** *** Nord.ts: block queries and the subscriber *)

Module NordQueries.

Module RollmanActionInfo.
Record t := mk { action_id : Z; action_pb : bytes }.
End RollmanActionInfo.

Module RollmanBlockResponse.
Record t := mk { block_number : Z; actions : list RollmanActionInfo.t }.
End RollmanBlockResponse.

Module ActionInfo.
Record t := mk { action_id : Z; action : proto.Action }.
End ActionInfo.

Module BlockResponse.
Record t := mk { block_number : Z; actions : list ActionInfo.t }.
End BlockResponse.

Section Queries.
Context (actionCoder : proto.MessageFns proto.Action).

(** The [for ... of] loop of [queryBlock]: decode and push, in order. *)
Fixpoint decodeActions (actions : list RollmanActionInfo.t)
  (acc : list ActionInfo.t) : result (list ActionInfo.t) :=
  match actions with
  | [] => Ok acc
  | rollmanAction :: rest =>
      action <- Utils.decodeLengthDelimited actionCoder
                  (RollmanActionInfo.action_pb rollmanAction) ;;
      decodeActions rest
        (acc ++ [ActionInfo.mk (RollmanActionInfo.action_id rollmanAction)
                   action])
  end.

(** [queryBlock]; [blockQueryRollman] is the HTTP request, already applied
    to the query. *)
Definition queryBlock (blockQueryRollman : result RollmanBlockResponse.t)
  : result BlockResponse.t :=
  rollmanResponse <- blockQueryRollman ;;
  actions <- decodeActions (RollmanBlockResponse.actions rollmanResponse) [] ;;
  Ok (BlockResponse.mk (RollmanBlockResponse.block_number rollmanResponse)
        actions).

End Queries.

End NordQueries.

Module Subscriber.

Definition MAX_BUFFER_LEN : Z := 10000.

Section Buffer.
(** A parsed message ([DeltaEvent | Trades | Account]). *)
Variable Event : Type.

Record t := mk { buffer : list Event; maxBufferLen : Z }.

(** The constructor: an empty buffer, [config.maxBufferLen ?? MAX_BUFFER_LEN]. *)
Definition create (maxBufferLen : option Z) : t :=
  mk [] (match maxBufferLen with Some n => n | None => MAX_BUFFER_LEN end).

(** The handler of ["message"]: push, then drop the oldest event when the
    buffer has grown past [maxBufferLen]. *)
Definition onMessage (this : t) (event : Event) : t :=
  let pushed := buffer this ++ [event] in
  if maxBufferLen this <? Z.of_nat (List.length pushed)
  then mk (tl pushed) (maxBufferLen this)
  else mk pushed (maxBufferLen this).

End Buffer.

End Subscriber.

(* ===================================================================== *)
(** ** Stand-ins for the injected collaborators *)

(** Modelled from the spec: the schema coders generated into
    [src/gen/nord] are not among the sources, and the signing and
    transport capabilities are injected by the caller.  The fixed-layout
    coders and the canned capabilities below stand in for them where a
    statement is evaluated on a concrete run; every theorem quantifies
    over the coders and capabilities themselves. *)
Module TestDoubles.

(** Little-endian, [n] bytes. *)
Fixpoint putLE (n : nat) (z : Z) : bytes :=
  match n with
  | O => []
  | S k => byteOfZ z :: putLE k (z / 256)
  end.

Fixpoint getLE (n : nat) (b : bytes) : option (Z * bytes) :=
  match n with
  | O => Some (0, b)
  | S k =>
      match b with
      | [] => None
      | x :: tl =>
          match getLE k tl with
          | Some (z, rest) => Some (byteToZ x + 256 * z, rest)
          | None => None
          end
      end
  end.

Definition putU64 : Z -> bytes := putLE 8.
Definition getU64 : bytes -> option (Z * bytes) := getLE 8.

Definition putBool (v : bool) : bytes := [if v then x01 else x00].

Definition getBool (b : bytes) : option (bool * bytes) :=
  match b with
  | x :: tl => Some (negb (byteToZ x =? 0), tl)
  | [] => None
  end.

Definition putOpt {A : Type} (put : A -> bytes) (v : option A) : bytes :=
  match v with
  | Some a => x01 :: put a
  | None => [x00]
  end.

Definition getOpt {A : Type} (get : bytes -> option (A * bytes))
  (b : bytes) : option (option A * bytes) :=
  match b with
  | x :: tl =>
      if byteToZ x =? 0 then Some (None, tl)
      else match get tl with
           | Some (a, rest) => Some (Some a, rest)
           | None => None
           end
  | [] => None
  end.

Definition putBytes (v : bytes) : bytes := putU64 (byteLength v) ++ v.

Definition getBytes (b : bytes) : option (bytes * bytes) :=
  match getU64 b with
  | Some (n, rest) =>
      if Z.of_nat (List.length rest) <? n then None
      else Some (firstn (Z.to_nat n) rest, skipn (Z.to_nat n) rest)
  | None => None
  end.

Definition optBind {A B : Type} (c : option A) (k : A -> option B)
  : option B :=
  match c with
  | Some a => k a
  | None => None
  end.

Notation "' pat <~ c ;; k" :=
  (optBind c (fun x => match x with pat => k end))
  (at level 61, pat pattern, c at next level, right associativity).

Definition putSide (s : proto.Side) : bytes :=
  putBool (match s with proto.BID => true | proto.ASK => false end).

Definition putFillMode (m : proto.FillMode) : bytes :=
  [match m with
   | proto.LIMIT => x00
   | proto.POST_ONLY => x01
   | proto.IMMEDIATE_OR_CANCEL => x02
   | proto.FILL_OR_KILL => x03
   end].

Definition getFillMode (b : bytes) : option (proto.FillMode * bytes) :=
  match b with
  | x :: tl =>
      match byteToZ x with
      | 0 => Some (proto.LIMIT, tl)
      | 1 => Some (proto.POST_ONLY, tl)
      | 2 => Some (proto.IMMEDIATE_OR_CANCEL, tl)
      | 3 => Some (proto.FILL_OR_KILL, tl)
      | _ => None
      end
  | [] => None
  end.

Definition putU128 (v : proto.U128) : bytes :=
  putU64 (proto.lo v) ++ putU64 (proto.hi v).

Definition getU128 (b : bytes) : option (proto.U128 * bytes) :=
  ' (l, b) <~ getU64 b ;;
  ' (h, b) <~ getU64 b ;;
  Some (proto.mkU128 l h, b).

Definition putKind (k : proto.ActionKind) : bytes :=
  match k with
  | proto.createSession v =>
      x01 :: putBytes (proto.CreateSession.userPubkey v)
          ++ putBytes (proto.CreateSession.blstPubkey v)
          ++ putU64 (proto.CreateSession.expiryTimestamp v)
  | proto.revokeSession v =>
      x02 :: putU64 (proto.RevokeSession.sessionId v)
  | proto.withdraw v =>
      x03 :: putU64 (proto.Withdraw.sessionId v)
          ++ putU64 (proto.Withdraw.tokenId v)
          ++ putU64 (proto.Withdraw.amount v)
  | proto.placeOrder v =>
      x04 :: putU64 (proto.PlaceOrder.sessionId v)
          ++ putOpt putU64 (proto.PlaceOrder.senderAccountId v)
          ++ putU64 (proto.PlaceOrder.marketId v)
          ++ putSide (proto.PlaceOrder.side v)
          ++ putFillMode (proto.PlaceOrder.fillMode v)
          ++ putBool (proto.PlaceOrder.isReduceOnly v)
          ++ putU64 (proto.PlaceOrder.price v)
          ++ putU64 (proto.PlaceOrder.size v)
          ++ putOpt putU128 (proto.PlaceOrder.quoteSize v)
          ++ putOpt putU64 (proto.PlaceOrder.clientOrderId v)
          ++ putOpt putU64 (proto.PlaceOrder.delegatorAccountId v)
  | proto.cancelOrderById v =>
      x05 :: putU64 (proto.CancelOrderById.orderId v)
          ++ putU64 (proto.CancelOrderById.sessionId v)
          ++ putOpt putU64 (proto.CancelOrderById.senderAccountId v)
          ++ putOpt putU64 (proto.CancelOrderById.delegatorAccountId v)
  | proto.transfer v =>
      x06 :: putU64 (proto.Transfer.sessionId v)
          ++ putU64 (proto.Transfer.fromAccountId v)
          ++ putOpt putU64 (proto.Transfer.toAccountId v)
          ++ putU64 (proto.Transfer.tokenId v)
          ++ putU64 (proto.Transfer.amount v)
  end.

Definition getKind (b : bytes) : option (proto.ActionKind * bytes) :=
  match b with
  | [] => None
  | tag :: b =>
      match byteToZ tag with
      | 1 =>
          ' (u, b) <~ getBytes b ;;
          ' (s, b) <~ getBytes b ;;
          ' (e, b) <~ getU64 b ;;
          Some (proto.createSession (proto.CreateSession.mk u s e), b)
      | 2 =>
          ' (s, b) <~ getU64 b ;;
          Some (proto.revokeSession (proto.RevokeSession.mk s), b)
      | 3 =>
          ' (s, b) <~ getU64 b ;;
          ' (t, b) <~ getU64 b ;;
          ' (a, b) <~ getU64 b ;;
          Some (proto.withdraw (proto.Withdraw.mk s t a), b)
      | 4 =>
          ' (sid, b) <~ getU64 b ;;
          ' (sender, b) <~ getOpt getU64 b ;;
          ' (market, b) <~ getU64 b ;;
          ' (bid, b) <~ getBool b ;;
          ' (mode, b) <~ getFillMode b ;;
          ' (reduce, b) <~ getBool b ;;
          ' (price, b) <~ getU64 b ;;
          ' (size, b) <~ getU64 b ;;
          ' (quote, b) <~ getOpt getU128 b ;;
          ' (client, b) <~ getOpt getU64 b ;;
          ' (delegator, b) <~ getOpt getU64 b ;;
          Some (proto.placeOrder
                  (proto.PlaceOrder.mk sid sender market
                     (if bid then proto.BID else proto.ASK)
                     mode reduce price size quote client delegator), b)
      | 5 =>
          ' (o, b) <~ getU64 b ;;
          ' (s, b) <~ getU64 b ;;
          ' (sender, b) <~ getOpt getU64 b ;;
          ' (delegator, b) <~ getOpt getU64 b ;;
          Some (proto.cancelOrderById
                  (proto.CancelOrderById.mk o s sender delegator), b)
      | 6 =>
          ' (s, b) <~ getU64 b ;;
          ' (from, b) <~ getU64 b ;;
          ' (to, b) <~ getOpt getU64 b ;;
          ' (t, b) <~ getU64 b ;;
          ' (a, b) <~ getU64 b ;;
          Some (proto.transfer (proto.Transfer.mk s from to t a), b)
      | _ => None
      end
  end.

Definition actionCoder : proto.MessageFns proto.Action :=
  proto.mkMessageFns proto.Action
    (fun a =>
       Ok (putU64 (proto.currentTimestamp a) ++ putU64 (proto.nonce a)
           ++ putOpt putKind (proto.kind a)))
    (fun b =>
       match (' (ts, b) <~ getU64 b ;;
              ' (n, b) <~ getU64 b ;;
              ' (k, b) <~ getOpt getKind b ;;
              Some (proto.mkAction ts n k)) with
       | Some a => Ok a
       | None => Err (External "Action.decode")
       end).

Definition putReceiptKind (k : proto.ReceiptKind) : bytes :=
  match k with
  | proto.err code => x01 :: putU64 code
  | proto.createSessionResult s => x02 :: putU64 s
  | proto.placeOrderResult p => x03 :: putOpt putU64 (Utils.optMap p proto.Posted.orderId)
  | proto.cancelOrderResult o => x04 :: putU64 o
  | proto.transferred v =>
      x05 :: putBool (proto.Transferred.accountCreated v)
          ++ putU64 (proto.Transferred.toAccountId v)
  | proto.otherResult _ => [x06]
  end.

Definition getReceiptKind (b : bytes) : option (proto.ReceiptKind * bytes) :=
  match b with
  | [] => None
  | tag :: b =>
      match byteToZ tag with
      | 1 => ' (c, b) <~ getU64 b ;; Some (proto.err c, b)
      | 2 => ' (s, b) <~ getU64 b ;; Some (proto.createSessionResult s, b)
      | 3 =>
          ' (p, b) <~ getOpt getU64 b ;;
          Some (proto.placeOrderResult (Utils.optMap p proto.Posted.mk), b)
      | 4 => ' (o, b) <~ getU64 b ;; Some (proto.cancelOrderResult o, b)
      | 5 =>
          ' (c, b) <~ getBool b ;;
          ' (t, b) <~ getU64 b ;;
          Some (proto.transferred (proto.Transferred.mk c t), b)
      | 6 => Some (proto.otherResult "sessionRevoked", b)
      | _ => None
      end
  end.

Definition receiptCoder : proto.MessageFns proto.Receipt :=
  proto.mkMessageFns proto.Receipt
    (fun r => Ok (putOpt putReceiptKind (proto.receiptKind r)))
    (fun b =>
       match getOpt getReceiptKind b with
       | Some (k, _) => Ok (proto.mkReceipt k)
       | None => Err (External "Receipt.decode")
       end).

(** A server that answers every request with the same receipt. *)
Definition respondWith (r : proto.Receipt) : bytes -> result bytes :=
  fun _ => Utils.encodeLengthDelimited receiptCoder r.

(** Signing capabilities that return a fixed signature. *)
Definition sessionSigner (signature : bytes) : bytes -> result bytes :=
  fun _ => Ok signature.

Definition walletSigner (signature : bytes) : bytes -> result string :=
  fun _ => Ok (Ethers.hexlify signature).

End TestDoubles.

(* ===================================================================== *)
(** ** Vocabulary of the statements *)

(** The key-length errors of [checkPubKeyLength]. *)
Definition isKeyLengthError (e : Error) : bool :=
  match e with
  | Bls12_381Unsupported | Ed25519KeyLength | Secp256k1KeyLength => true
  | _ => false
  end.

(** The four steps of [sendAction] that precede its inspection of the
    receipt: frame the action, sign, send, and decode the answer. *)
Definition receive (actionCoder : proto.MessageFns proto.Action)
  (receiptCoder : proto.MessageFns proto.Receipt)
  (sendFn makeSignedMessage : bytes -> result bytes)
  (action : proto.Action) : result proto.Receipt :=
  bind (Utils.encodeLengthDelimited actionCoder action) (fun encoded =>
  bind (makeSignedMessage encoded) (fun body =>
  bind (sendFn body) (fun rawResp =>
  Utils.decodeLengthDelimited receiptCoder rawResp))).

(** What [Ethers.hexPairs] reads back from the two hex digits
    [Ethers.hexOfBytes] writes for the byte [x]. *)
Definition hexDigitValue_pair (x : byte) : option byte :=
  match Ethers.hexDigitValue (Ethers.hexChar (Byte.to_N x / 16)),
        Ethers.hexDigitValue (Ethers.hexChar (Byte.to_N x mod 16)) with
  | Some h, Some l => Some (byteOfZ (Z.of_N (16 * h + l)))
  | _, _ => None
  end.

(** Rounding towards zero, the [round_down] of the specification. *)
Definition round_down (q : Q) : Z :=
  if Qle_bool 0 q then Qfloor q else Qceiling q.

(** [x] is written with at most [P] significant digits (zeros at the
    end of the coefficient do not count). *)
Definition fitsPrecision (P : N) (x : Decimal) : Prop :=
  exists t c0, coef x = (10 ^ t * c0)%N /\ (digits c0 <= P)%N.

(** The contract of a scaled conversion of working precision [P] and
    target width [width]. *)
Definition ScaledConversionSpec (toScaled : Decimal -> N -> result Z)
  (P : N) (width : Z) : Prop :=
  forall (x : Decimal) (d : N),
    ((toQ x == 0)%Q -> toScaled x d = Ok 0)
    /\ ((toQ x < 0)%Q -> toScaled x d = Err NumberIsNegative)
    /\ ((0 < toQ x)%Q -> fitsPrecision P x ->
        let r := round_down (toQ x * inject_Z (10 ^ Z.of_N d)) in
        (r = 0 -> toScaled x d = Err (PrecisionLoss x))
        /\ (2 ^ width - 1 < r ->
            exists scaled,
              toScaled x d
              = Err (IntegerOutOfRange scaled (ofZ (2 ^ width - 1))))
        /\ (0 < r <= 2 ^ width - 1 -> toScaled x d = Ok r))
    /\ (toScaled x d = Ok 0 <-> (toQ x == 0)%Q)
    /\ (forall v, toScaled x d = Ok v -> 0 <= v <= 2 ^ width - 1).

(** The integer part of a non-negative decimal. *)
Definition floorOf (y : Decimal) : Z := unitsAt 0 (truncated y).

(** How far a scaled conversion may be from the exact integer part
    [f = round_down (x * 10^d)] on a positive input. *)
Definition ScaledRoundingBound (toScaled : Decimal -> N -> result Z)
  (width : Z) : Prop :=
  forall (x : Decimal) (d : N),
    (0 < toQ x)%Q ->
    let f := round_down (toQ x * inject_Z (10 ^ Z.of_N d)) in
    (forall v, toScaled x d = Ok v -> f <= v <= f + 1)
    /\ (toScaled x d = Err (PrecisionLoss x) -> f = 0)
    /\ (forall scaled Max,
          toScaled x d = Err (IntegerOutOfRange scaled Max) ->
          2 ^ width - 1 <= f)
    /\ (2 ^ width - 1 < f ->
        exists scaled,
          toScaled x d = Err (IntegerOutOfRange scaled (ofZ (2 ^ width - 1))))
    /\ ((exists v, toScaled x d = Ok v)
        \/ toScaled x d = Err (PrecisionLoss x)
        \/ exists scaled,
             toScaled x d = Err (IntegerOutOfRange scaled (ofZ (2 ^ width - 1)))).

(** What a scaled conversion returns on a non-negative [x] with at most
    [d] decimal places, that is when [x * 10^d] is the integer [n]. *)
Definition ScaledExactly (toScaled : Decimal -> N -> result Z) (width : Z)
  : Prop :=
  forall (x : Decimal) (d : N),
    neg x = false -> 0 <= exp x + Z.of_N d ->
    let n := Z.of_N (coef x) * 10 ^ (exp x + Z.of_N d) in
    (n = 0 -> toScaled x d = Ok 0)
    /\ (0 < n <= 2 ^ width - 1 -> toScaled x d = Ok n)
    /\ (2 ^ width - 1 < n ->
        exists scaled,
          toScaled x d = Err (IntegerOutOfRange scaled (ofZ (2 ^ width - 1)))).

(** The clock readings of successive [getNonce] calls, each paired with
    the nonce the call returned. *)
Fixpoint nonceRun (nows : list Z) (this : NordUser.NonceState)
  : list (Z * Z) :=
  match nows with
  | [] => []
  | now :: rest =>
      let '(nonce, this') := NordUser.getNonce now this in
      (now, nonce) :: nonceRun rest this'
  end.

(** The subscriber after the messages [events], from the constructor on. *)
Definition received (Event : Type) (maxBufferLen : option Z)
  (events : list Event) : Subscriber.t Event :=
  fold_left (Subscriber.onMessage Event) events
    (Subscriber.create Event maxBufferLen).

(** The entry a block carries for the action [expected]: its id and its
    length-delimited encoding, which the schema coder reads back. *)
Definition framed (coder : proto.MessageFns proto.Action)
  (info : NordQueries.RollmanActionInfo.t)
  (expected : NordQueries.ActionInfo.t) : Prop :=
  NordQueries.RollmanActionInfo.action_id info
  = NordQueries.ActionInfo.action_id expected
  /\ Utils.encodeLengthDelimited coder (NordQueries.ActionInfo.action expected)
     = Ok (NordQueries.RollmanActionInfo.action_pb info)
  /\ (forall payload,
        proto.encode (NordQueries.ActionInfo.action expected) = Ok payload ->
        proto.decode payload = Ok (NordQueries.ActionInfo.action expected)).

(* ===================================================================== *)
(** * Properties *)

Import Utils.

(** ** The wide split *)

Lemma U64_MAX_eq : U64_MAX = 2 ^ 64 - 1.
Proof. reflexivity. Qed.

Lemma U128_MAX_eq : U128_MAX = 2 ^ 128 - 1.
Proof. reflexivity. Qed.

Lemma land_U64_MAX (a : Z) : Z.land a U64_MAX = a mod 2 ^ 64.
Proof.
  change U64_MAX with (Z.ones 64). apply Z.land_ones. lia.
Qed.

Lemma bigIntToProtoU128_in_range (value : Z) :
  0 <= value <= 2 ^ 128 - 1 ->
  bigIntToProtoU128 value
  = Ok (proto.mkU128 (value mod 2 ^ 64) (value / 2 ^ 64)).
Proof.
  intros Hr. unfold bigIntToProtoU128.
  destruct (Z.ltb_spec value 0) as [Hn|_]; [lia|].
  destruct (Z.ltb_spec U128_MAX value) as [Hb|_];
    [rewrite U128_MAX_eq in Hb; lia|].
  rewrite !land_U64_MAX, Z.shiftr_div_pow2 by lia.
  f_equal. f_equal.
  apply Z.mod_small. split.
  - apply Z.div_pos; lia.
  - apply Z.div_lt_upper_bound; lia.
Qed.

(** C4.  [bigIntToProtoU128] throws exactly on a negative value or one
    above [2^128 - 1]; on every other value it returns
    [lo = value & (2^64 - 1)] and [hi = (value >> 64) & (2^64 - 1)], both
    below [2^64], with [lo + hi * 2^64 = value]; and the four boundary
    values split as the specification lists them. *)
Theorem bigIntToProtoU128_spec :
  (forall value,
     isOk (bigIntToProtoU128 value) = false
     <-> value < 0 \/ 2 ^ 128 - 1 < value)
  /\ (forall value,
        0 <= value <= 2 ^ 128 - 1 ->
        exists lo hi,
          bigIntToProtoU128 value = Ok (proto.mkU128 lo hi)
          /\ lo = Z.land value (2 ^ 64 - 1)
          /\ hi = Z.land (Z.shiftr value 64) (2 ^ 64 - 1)
          /\ 0 <= lo < 2 ^ 64
          /\ 0 <= hi < 2 ^ 64
          /\ lo + hi * 2 ^ 64 = value)
  /\ bigIntToProtoU128 0 = Ok (proto.mkU128 0 0)
  /\ bigIntToProtoU128 (2 ^ 64 - 1) = Ok (proto.mkU128 (2 ^ 64 - 1) 0)
  /\ bigIntToProtoU128 (2 ^ 64) = Ok (proto.mkU128 0 1)
  /\ bigIntToProtoU128 (2 ^ 128 - 1)
     = Ok (proto.mkU128 (2 ^ 64 - 1) (2 ^ 64 - 1)).
Proof.
  split; [|split; [|repeat split; reflexivity]].
  - intros value. unfold bigIntToProtoU128.
    destruct (Z.ltb_spec value 0) as [Hn|Hn]; cbn [isOk].
    + split; [intros _; left; exact Hn | reflexivity].
    + destruct (Z.ltb_spec U128_MAX value) as [Hb|Hb];
        rewrite U128_MAX_eq in Hb; cbn [isOk].
      * split; [intros _; right; exact Hb | reflexivity].
      * split; [discriminate | lia].
  - intros value Hr.
    assert (Hhi : 0 <= value / 2 ^ 64 < 2 ^ 64).
    { split; [apply Z.div_pos; lia | apply Z.div_lt_upper_bound; lia]. }
    exists (value mod 2 ^ 64), (value / 2 ^ 64).
    split; [apply bigIntToProtoU128_in_range; exact Hr|].
    split; [rewrite <- U64_MAX_eq, land_U64_MAX; reflexivity|].
    split.
    { rewrite <- U64_MAX_eq, land_U64_MAX, Z.shiftr_div_pow2 by lia.
      symmetry. apply Z.mod_small. exact Hhi. }
    pose proof (Z.mod_pos_bound value (2 ^ 64) ltac:(lia)).
    pose proof (Z.div_mod value (2 ^ 64) ltac:(lia)).
    repeat split; lia.
Qed.

Lemma bigIntToProtoU128_spec_witness :
  exists lo hi,
    bigIntToProtoU128 (2 ^ 64 + 5) = Ok (proto.mkU128 lo hi)
    /\ lo = Z.land (2 ^ 64 + 5) (2 ^ 64 - 1)
    /\ hi = Z.land (Z.shiftr (2 ^ 64 + 5) 64) (2 ^ 64 - 1)
    /\ 0 <= lo < 2 ^ 64
    /\ 0 <= hi < 2 ^ 64
    /\ lo + hi * 2 ^ 64 = 2 ^ 64 + 5.
Proof.
  apply (proj1 (proj2 bigIntToProtoU128_spec) (2 ^ 64 + 5)).
  split; [discriminate | discriminate].
Defined.

(** ** The nonce counter *)

Import NordUser.

Lemma getNonce_same_tick (now : Z) (st : NonceState) :
  (inject_Z now / 1000 == lastTs st)%Q ->
  getNonce now st
  = (lastNonce st + 1, mkNonceState (lastTs st) (lastNonce st + 1)).
Proof.
  intros H. unfold getNonce.
  rewrite (proj2 (Qeq_bool_iff _ _) H). reflexivity.
Qed.

Lemma getNonce_new_tick (now : Z) (st : NonceState) :
  ~ (inject_Z now / 1000 == lastTs st)%Q ->
  getNonce now st = (0, mkNonceState (inject_Z now / 1000)%Q 0).
Proof.
  intros H. unfold getNonce.
  destruct (Qeq_bool (inject_Z now / 1000) (lastTs st)) eqn:E.
  - exfalso. apply H. apply Qeq_bool_iff. exact E.
  - reflexivity.
Qed.

Lemma getNonce_records_tick (now : Z) (st : NonceState) :
  (lastTs (snd (getNonce now st)) == inject_Z now / 1000)%Q.
Proof.
  unfold getNonce.
  destruct (Qeq_bool (inject_Z now / 1000) (lastTs st)) eqn:E; cbn.
  - symmetry. apply Qeq_bool_iff. exact E.
  - reflexivity.
Qed.

(** C9.  A [getNonce] call whose tick [Date.now() / 1000] equals the
    stored [lastTs] returns [lastNonce + 1] and stores it; a call whose
    tick differs stores the new tick and returns 0; hence a second call
    within the same tick returns the first call's nonce plus one. *)
Theorem getNonce_spec (now : Z) (st : NonceState) :
  ((inject_Z now / 1000 == lastTs st)%Q ->
   fst (getNonce now st) = lastNonce st + 1
   /\ lastNonce (snd (getNonce now st)) = lastNonce st + 1
   /\ lastTs (snd (getNonce now st)) = lastTs st)
  /\ (~ (inject_Z now / 1000 == lastTs st)%Q ->
      fst (getNonce now st) = 0
      /\ snd (getNonce now st) = mkNonceState (inject_Z now / 1000)%Q 0)
  /\ (let first := getNonce now st in
      let second := getNonce now (snd first) in
      fst second = fst first + 1 /\ fst first < fst second).
Proof.
  split; [|split].
  - intros H. rewrite (getNonce_same_tick now st H). cbn. auto.
  - intros H. rewrite (getNonce_new_tick now st H). cbn. auto.
  - cbv zeta.
    assert (Hs : (inject_Z now / 1000 == lastTs (snd (getNonce now st)))%Q)
      by (symmetry; apply getNonce_records_tick).
    rewrite (getNonce_same_tick now (snd (getNonce now st)) Hs).
    assert (Hf : fst (getNonce now st) = lastNonce (snd (getNonce now st)))
      by reflexivity.
    cbn [fst]. rewrite Hf. lia.
Qed.

Lemma getNonce_spec_witness :
  (fst (getNonce 5000 (mkNonceState 5 7)) = 7 + 1
   /\ lastNonce (snd (getNonce 5000 (mkNonceState 5 7))) = 7 + 1
   /\ lastTs (snd (getNonce 5000 (mkNonceState 5 7))) = 5%Q)
  /\ (fst (getNonce 5001 (mkNonceState 5 7)) = 0
      /\ snd (getNonce 5001 (mkNonceState 5 7))
         = mkNonceState (inject_Z 5001 / 1000)%Q 0).
Proof.
  split.
  - apply (proj1 (getNonce_spec 5000 (mkNonceState 5 7))). reflexivity.
  - apply (proj1 (proj2 (getNonce_spec 5001 (mkNonceState 5 7)))).
    cbn. unfold Qeq. cbn. discriminate.
Defined.

(** ** The CreateSession builder *)

Import Actions.

Lemma checkPubKeyLength_Secp256k1 (len : Z) :
  checkPubKeyLength Types.Secp256k1 len
  = if len =? 33 then Ok tt else Err Secp256k1KeyLength.
Proof.
  unfold checkPubKeyLength. cbn.
  rewrite andb_false_r. destruct (len =? 33); reflexivity.
Qed.

Lemma checkPubKeyLength_Ed25519 (len : Z) :
  checkPubKeyLength Types.Ed25519 len
  = if len =? 32 then Ok tt else Err Ed25519KeyLength.
Proof.
  unfold checkPubKeyLength. cbn.
  destruct (len =? 32); cbn; [|reflexivity].
  destruct (len =? 33); reflexivity.
Qed.

Lemma checkPubKeyLength_Bls12_381 (len : Z) :
  checkPubKeyLength Types.Bls12_381 len = Err Bls12_381Unsupported.
Proof. reflexivity. Qed.

Lemma createSessionAction_unfold (ts nonce : Z) (p : CreateSessionParams.t) :
  createSessionAction ts nonce p
  = if negb (byteLength (CreateSessionParams.userPubkey p) =? 33)
    then Err Secp256k1KeyLength
    else if negb (byteLength (CreateSessionParams.sessionPubkey p) =? 32)
    then Err Ed25519KeyLength
    else match CreateSessionParams.expiryTimestamp p with
         | Some expiry =>
             if ts <? expiry
             then Ok (proto.mkAction ts nonce
                        (Some (proto.createSession
                                 (proto.CreateSession.mk
                                    (CreateSessionParams.userPubkey p)
                                    (CreateSessionParams.sessionPubkey p)
                                    expiry))))
             else Err (AssertionViolated
                         "Cannot set expiry timestamp in the past")
         | None =>
             Ok (proto.mkAction ts nonce
                   (Some (proto.createSession
                            (proto.CreateSession.mk
                               (CreateSessionParams.userPubkey p)
                               (CreateSessionParams.sessionPubkey p)
                               (ts + SESSION_TTL)))))
         end.
Proof.
  unfold createSessionAction.
  rewrite checkPubKeyLength_Secp256k1, checkPubKeyLength_Ed25519.
  destruct (byteLength (CreateSessionParams.userPubkey p) =? 33);
    [|reflexivity].
  destruct (byteLength (CreateSessionParams.sessionPubkey p) =? 32);
    [|reflexivity].
  cbn. destruct (CreateSessionParams.expiryTimestamp p) as [e|];
    [|reflexivity].
  cbn. unfold assert. destruct (ts <? e); reflexivity.
Qed.

(** C7.  The CreateSession builder fails with a key-length error unless
    [userPubkey] has 33 bytes (Secp256k1) and [sessionPubkey] has 32
    (Ed25519); [checkPubKeyLength] rejects a Bls12_381 key of any length;
    with both lengths right, a supplied expiry that does not strictly
    exceed [currentTimestamp] fails with the expiry-in-past assertion, a
    supplied expiry that does is the action's expiry, and without one the
    expiry is [currentTimestamp + SESSION_TTL], where
    [SESSION_TTL = 10 * 60 * 1000 * 10000]; a builder error is the error
    of [createSessionImpl], whatever the injected capabilities. *)
Theorem createSession_builder_spec :
  SESSION_TTL = 10 * 60 * 1000 * 10000
  /\ (forall len, checkPubKeyLength Types.Bls12_381 len
                  = Err Bls12_381Unsupported)
  /\ (forall len, isOk (checkPubKeyLength Types.Secp256k1 len) = true
                  <-> len = 33)
  /\ (forall len, isOk (checkPubKeyLength Types.Ed25519 len) = true
                  <-> len = 32)
  /\ forall (ts nonce : Z) (p : CreateSessionParams.t),
       let user := CreateSessionParams.userPubkey p in
       let session := CreateSessionParams.sessionPubkey p in
       let action expiry :=
         proto.mkAction ts nonce
           (Some (proto.createSession
                    (proto.CreateSession.mk user session expiry))) in
       ((exists e, createSessionAction ts nonce p = Err e
                   /\ isKeyLengthError e = true)
        <-> ~ (byteLength user = 33 /\ byteLength session = 32))
       /\ (byteLength user = 33 -> byteLength session = 32 ->
           match CreateSessionParams.expiryTimestamp p with
           | Some expiry =>
               (expiry <= ts ->
                createSessionAction ts nonce p
                = Err (AssertionViolated
                         "Cannot set expiry timestamp in the past"))
               /\ (ts < expiry ->
                   createSessionAction ts nonce p = Ok (action expiry))
           | None =>
               createSessionAction ts nonce p
               = Ok (action (ts + 10 * 60 * 1000 * 10000))
           end)
       /\ (forall actionCoder receiptCoder sendFn walletSignFn e,
             createSessionAction ts nonce p = Err e ->
             createSessionImpl actionCoder receiptCoder sendFn walletSignFn
               ts nonce p = Err e).
Proof.
  split; [reflexivity|].
  split; [exact checkPubKeyLength_Bls12_381|].
  split.
  { intros len. rewrite checkPubKeyLength_Secp256k1.
    destruct (Z.eqb_spec len 33); cbn; split; congruence. }
  split.
  { intros len. rewrite checkPubKeyLength_Ed25519.
    destruct (Z.eqb_spec len 32); cbn; split; congruence. }
  intros ts nonce p user session action.
  rewrite createSessionAction_unfold. fold user session.
  split; [|split].
  - destruct (Z.eqb_spec (byteLength user) 33) as [Hu|Hu]; cbn.
    + destruct (Z.eqb_spec (byteLength session) 32) as [Hs|Hs]; cbn.
      * split; [|tauto].
        intros [e [He Hk]]. exfalso.
        destruct (CreateSessionParams.expiryTimestamp p) as [x|];
          [destruct (ts <? x)|]; inversion He; subst e; discriminate Hk.
      * split; [tauto|]. intros _. eexists. split; reflexivity.
    + split; [tauto|]. intros _. eexists. split; reflexivity.
  - intros Hu Hs. rewrite Hu, Hs. cbn.
    destruct (CreateSessionParams.expiryTimestamp p) as [x|]; [|reflexivity].
    split; intros Hx.
    + destruct (Z.ltb_spec ts x); [lia | reflexivity].
    + destruct (Z.ltb_spec ts x); [reflexivity | lia].
  - intros actionCoder receiptCoder sendFn walletSignFn e He.
    unfold createSessionImpl. rewrite createSessionAction_unfold.
    fold user session. rewrite He. reflexivity.
Qed.

Lemma createSession_builder_spec_witness :
  let p := CreateSessionParams.mk (repeat x02 33) (repeat x01 32) None in
  createSessionAction 1000 0 p
  = Ok (proto.mkAction 1000 0
          (Some (proto.createSession
                   (proto.CreateSession.mk (repeat x02 33) (repeat x01 32)
                      (1000 + 10 * 60 * 1000 * 10000))))).
Proof.
  exact (proj1 (proj2
    (proj2 (proj2 (proj2 (proj2 createSession_builder_spec)))
       1000 0 (CreateSessionParams.mk (repeat x02 33) (repeat x01 32) None)))
    eq_refl eq_refl).
Defined.

(** ** The two signing schemes *)

Lemma hex_byte_roundtrip (x : byte) :
  hexDigitValue_pair x = Some x.
Proof. destruct x; reflexivity. Qed.

Lemma hexPairs_hexOfBytes (b : bytes) :
  Ethers.hexPairs (Ethers.hexOfBytes b) = Some b.
Proof.
  induction b as [|x tl IH]; [reflexivity|].
  change (Ethers.hexPairs (Ethers.hexOfBytes (x :: tl)))
    with (match Ethers.hexDigitValue (Ethers.hexChar (Byte.to_N x / 16)),
                Ethers.hexDigitValue (Ethers.hexChar (Byte.to_N x mod 16)),
                Ethers.hexPairs (Ethers.hexOfBytes tl) with
          | Some h, Some l, Some t => Some (byteOfZ (Z.of_N (16 * h + l)) :: t)
          | _, _, _ => None
          end).
  rewrite IH.
  pose proof (hex_byte_roundtrip x) as Hx. unfold hexDigitValue_pair in Hx.
  destruct (Ethers.hexDigitValue (Ethers.hexChar (Byte.to_N x / 16)));
    [|discriminate].
  destruct (Ethers.hexDigitValue (Ethers.hexChar (Byte.to_N x mod 16)));
    [|discriminate].
  exact (f_equal (fun o : option byte =>
                    match o with Some y => Some (y :: tl) | None => None end)
                 Hx).
Qed.

Lemma getBytes_hexlify (b : bytes) :
  Ethers.getBytes (Ethers.hexlify b) = Ok b.
Proof.
  unfold Ethers.getBytes, Ethers.hexlify.
  rewrite hexPairs_hexOfBytes. reflexivity.
Qed.

Lemma hexPairs_cons (a c : ascii) (rest : string) (b : bytes) :
  Ethers.hexPairs (String a (String c rest)) = Some b ->
  exists x tl,
    b = x :: tl
    /\ Ethers.hexPairs rest = Some tl
    /\ forall rest' tl',
         Ethers.hexPairs rest' = Some tl' ->
         Ethers.hexPairs (String a (String c rest')) = Some (x :: tl').
Proof.
  cbn [Ethers.hexPairs].
  destruct (Ethers.hexDigitValue a) as [h|]; [|discriminate].
  destruct (Ethers.hexDigitValue c) as [l|]; [|discriminate].
  destruct (Ethers.hexPairs rest) as [tl|]; [|discriminate].
  intros E. injection E as <-.
  eexists _, tl. split; [reflexivity|]. split; [reflexivity|].
  intros rest' tl' E'. rewrite E'. reflexivity.
Qed.

Lemma hexPairs_nil (s : string) :
  Ethers.hexPairs s = Some [] -> s = EmptyString.
Proof.
  destruct s as [|a [|c rest]]; [reflexivity | discriminate |].
  intros E. apply hexPairs_cons in E. destruct E as [x [tl [E _]]].
  discriminate E.
Qed.

Lemma hexPairs_length (b : bytes) : forall s,
  Ethers.hexPairs s = Some b -> String.length s = (2 * List.length b)%nat.
Proof.
  induction b as [|x tl IH]; intros s E.
  - apply hexPairs_nil in E. subst s. reflexivity.
  - destruct s as [|a [|c rest]]; try discriminate E.
    apply hexPairs_cons in E. destruct E as [x' [tl' [E1 [E2 _]]]].
    injection E1 as _ <-. cbn [String.length List.length].
    rewrite (IH rest E2). lia.
Qed.

Lemma substring_0_S (n : nat) (c : ascii) (s : string) :
  substring 0 (S n) (String c s) = String c (substring 0 n s).
Proof. reflexivity. Qed.

Lemma hexPairs_drop_last (b : bytes) : forall s,
  Ethers.hexPairs s = Some b -> b <> [] ->
  Ethers.hexPairs (substring 0 (String.length s - 2) s)
  = Some (removelast b).
Proof.
  induction b as [|x tl IH]; intros s E Hne; [congruence|].
  destruct s as [|a [|c rest]]; try discriminate E.
  pose proof (hexPairs_cons a c rest _ E) as [x' [tl' [E1 [E2 Hk]]]].
  injection E1 as <- <-.
  destruct tl as [|y tl''].
  - apply hexPairs_nil in E2. subst rest. reflexivity.
  - assert (Hne' : y :: tl'' <> []) by discriminate.
    pose proof (hexPairs_length _ _ E2) as HL. cbn [List.length] in HL.
    specialize (IH rest E2 Hne').
    cbn [String.length].
    replace (S (S (String.length rest)) - 2)%nat
      with (S (S (String.length rest - 2))) by lia.
    rewrite !substring_0_S.
    change (removelast (x :: y :: tl'')) with (x :: removelast (y :: tl'')).
    apply Hk. exact IH.
Qed.

Lemma getBytes_drop_last (signature : string) (sig : bytes) :
  Ethers.getBytes signature = Ok sig -> sig <> [] ->
  Ethers.getBytes (Ethers.sliceDropLast signature 2) = Ok (removelast sig).
Proof.
  intros E Hne. unfold Ethers.getBytes in E.
  destruct signature as [|z [|x rest]]; try discriminate E.
  { destruct z as [[] [] [] [] [] [] [] []]; discriminate E. }
  assert (Hz : z = "0"%char).
  { destruct z as [[] [] [] [] [] [] [] []]; try discriminate E.
    reflexivity. }
  subst z.
  destruct (Ascii.eqb x "x" || Ascii.eqb x "X")%bool eqn:Ex;
    [|discriminate E].
  destruct (Ethers.hexPairs rest) as [b|] eqn:Eb; [|discriminate E].
  injection E as ->.
  pose proof (hexPairs_length _ _ Eb) as HL.
  assert (Hpos : (0 < List.length sig)%nat)
    by (destruct sig; [congruence | cbn; lia]).
  unfold Ethers.sliceDropLast. cbn [String.length].
  replace (S (S (String.length rest)) - 2)%nat
    with (S (S (String.length rest - 2))) by lia.
  rewrite !substring_0_S. unfold Ethers.getBytes. rewrite Ex.
  rewrite (hexPairs_drop_last sig rest Eb Hne). reflexivity.
Qed.

(** C8.  Wallet signing returns the encoded action followed by the bytes
    of the serialized signature without the last one (the recovery
    indicator), for every signature string that [ethers.getBytes] reads
    as at least one byte, whatever the case of its prefix and digits;
    session signing returns the encoded action followed by the whole
    signature. *)
Theorem signing_schemes_spec (message : bytes) :
  (forall (walletSignFn : bytes -> result string) (signature : string)
          (sig : bytes),
     walletSignFn message = Ok signature ->
     Ethers.getBytes signature = Ok sig ->
     sig <> [] ->
     walletSign walletSignFn message = Ok (message ++ removelast sig))
  /\ (forall (signFn : bytes -> result bytes) (signature : bytes),
        signFn message = Ok signature ->
        sessionSign signFn message = Ok (message ++ signature)).
Proof.
  split.
  - intros walletSignFn signature sig Hs Hb Hne. unfold walletSign.
    rewrite Hs. cbn [bind].
    rewrite (getBytes_drop_last signature sig Hb Hne). reflexivity.
  - intros signFn signature Hs. unfold sessionSign. rewrite Hs. reflexivity.
Qed.

Lemma signing_schemes_spec_witness :
  walletSign (TestDoubles.walletSigner [xaa; xbb; x1b]) [x07; x08]
  = Ok ([x07; x08] ++ removelast [xaa; xbb; x1b])
  /\ walletSign (fun _ => Ok "0XAABB1B"%string) [x07; x08]
     = Ok ([x07; x08] ++ removelast [xaa; xbb; x1b])
  /\ sessionSign (TestDoubles.sessionSigner [xaa; xbb; x1b]) [x07; x08]
     = Ok ([x07; x08] ++ [xaa; xbb; x1b]).
Proof.
  split; [|split].
  - apply (proj1 (signing_schemes_spec [x07; x08])
             (TestDoubles.walletSigner [xaa; xbb; x1b])
             (Ethers.hexlify [xaa; xbb; x1b]) [xaa; xbb; x1b]).
    + reflexivity.
    + reflexivity.
    + discriminate.
  - apply (proj1 (signing_schemes_spec [x07; x08])
             (fun _ => Ok "0XAABB1B"%string)
             "0XAABB1B"%string [xaa; xbb; x1b]).
    + reflexivity.
    + reflexivity.
    + discriminate.
  - apply (proj2 (signing_schemes_spec [x07; x08])
             (TestDoubles.sessionSigner [xaa; xbb; x1b]) [xaa; xbb; x1b]).
    reflexivity.
Defined.

(** ** Receipt validation *)

Section Receipts.
Variables (actionCoder : proto.MessageFns proto.Action)
          (receiptCoder : proto.MessageFns proto.Receipt)
          (sendFn : bytes -> result bytes).

Lemma sendAction_receive (makeSignedMessage : bytes -> result bytes)
  (action : proto.Action) (desc : string) :
  sendAction actionCoder receiptCoder sendFn makeSignedMessage action desc
  = bind (receive actionCoder receiptCoder sendFn makeSignedMessage action)
      (fun resp =>
         match proto.receiptKind resp with
         | Some (proto.err value) => Err (ServerError desc value)
         | _ => Ok resp
         end).
Proof.
  unfold sendAction, receive.
  destruct (encodeLengthDelimited actionCoder action); [|reflexivity].
  cbn [bind]. destruct (makeSignedMessage a); [|reflexivity].
  cbn [bind]. destruct (sendFn a0); reflexivity.
Qed.

Lemma sendAction_err makeSignedMessage action desc resp code :
  receive actionCoder receiptCoder sendFn makeSignedMessage action = Ok resp ->
  proto.receiptKind resp = Some (proto.err code) ->
  sendAction actionCoder receiptCoder sendFn makeSignedMessage action desc
  = Err (ServerError desc code).
Proof.
  intros Hr Hk. rewrite sendAction_receive, Hr. cbn [bind].
  rewrite Hk. reflexivity.
Qed.

Lemma sendAction_not_err makeSignedMessage action desc resp :
  receive actionCoder receiptCoder sendFn makeSignedMessage action = Ok resp ->
  (forall code, proto.receiptKind resp <> Some (proto.err code)) ->
  sendAction actionCoder receiptCoder sendFn makeSignedMessage action desc
  = Ok resp.
Proof.
  intros Hr Hk. rewrite sendAction_receive, Hr. cbn [bind].
  destruct (proto.receiptKind resp) as [[code| | | | |]|]; try reflexivity.
  exfalso. exact (Hk code eq_refl).
Qed.

(** Every one of the six submissions turns an [err] receipt into a
    [ServerError] that carries the server's code. *)
Lemma server_error_surfaces_everywhere
  (walletSignFn : bytes -> result string) (signFn : bytes -> result bytes)
  (ts nonce : Z) (resp : proto.Receipt) (code : Z) :
  proto.receiptKind resp = Some (proto.err code) ->
  (forall p action,
     createSessionAction ts nonce p = Ok action ->
     receive actionCoder receiptCoder sendFn (walletSign walletSignFn) action
     = Ok resp ->
     createSessionImpl actionCoder receiptCoder sendFn walletSignFn ts nonce p
     = Err (ServerError "create a new session" code))
  /\ (forall p action,
        revokeSessionAction ts nonce p = Ok action ->
        receive actionCoder receiptCoder sendFn (walletSign walletSignFn) action
        = Ok resp ->
        revokeSessionImpl actionCoder receiptCoder sendFn walletSignFn ts nonce p
        = Err (ServerError "create a new session" code))
  /\ (forall p action,
        withdrawAction ts nonce p = Ok action ->
        receive actionCoder receiptCoder sendFn (sessionSign signFn) action
        = Ok resp ->
        withdrawImpl actionCoder receiptCoder sendFn signFn ts nonce p
        = Err (ServerError "withdraw" code))
  /\ (forall p action,
        placeOrderAction ts nonce p = Ok action ->
        receive actionCoder receiptCoder sendFn (sessionSign signFn) action
        = Ok resp ->
        placeOrderImpl actionCoder receiptCoder sendFn signFn ts nonce p
        = Err (ServerError "place the order" code))
  /\ (forall p action,
        cancelOrderAction ts nonce p = Ok action ->
        receive actionCoder receiptCoder sendFn (sessionSign signFn) action
        = Ok resp ->
        cancelOrderImpl actionCoder receiptCoder sendFn signFn ts nonce p
        = Err (ServerError "cancel the order" code))
  /\ (forall p action,
        transferAction ts nonce p = Ok action ->
        receive actionCoder receiptCoder sendFn (sessionSign signFn) action
        = Ok resp ->
        transferImpl actionCoder receiptCoder sendFn signFn ts nonce p
        = Err (ServerError "transfer asset to other account" code)).
Proof.
  intros Hk.
  repeat split; intros p action Ha Hr;
    [ unfold createSessionImpl | unfold revokeSessionImpl
    | unfold withdrawImpl | unfold placeOrderImpl
    | unfold cancelOrderImpl | unfold transferImpl ];
    rewrite Ha; cbn [bind];
    change (fun m : bytes => walletSign walletSignFn m)
      with (walletSign walletSignFn);
    change (fun m : bytes => sessionSign signFn m)
      with (sessionSign signFn);
    erewrite sendAction_err by eassumption; reflexivity.
Qed.

(** The four submissions that read a payload reject every receipt of
    another kind. *)
Lemma unexpected_kind_rejected_where_checked
  (walletSignFn : bytes -> result string) (signFn : bytes -> result bytes)
  (ts nonce : Z) (resp : proto.Receipt) :
  (forall code, proto.receiptKind resp <> Some (proto.err code)) ->
  (forall p action,
     createSessionAction ts nonce p = Ok action ->
     receive actionCoder receiptCoder sendFn (walletSign walletSignFn) action
     = Ok resp ->
     (forall s, proto.receiptKind resp <> Some (proto.createSessionResult s)) ->
     createSessionImpl actionCoder receiptCoder sendFn walletSignFn ts nonce p
     = Err (UnexpectedReceiptKind (proto.caseOf (proto.receiptKind resp))))
  /\ (forall p action,
        placeOrderAction ts nonce p = Ok action ->
        receive actionCoder receiptCoder sendFn (sessionSign signFn) action
        = Ok resp ->
        (forall o, proto.receiptKind resp <> Some (proto.placeOrderResult o)) ->
        placeOrderImpl actionCoder receiptCoder sendFn signFn ts nonce p
        = Err (UnexpectedReceiptKind (proto.caseOf (proto.receiptKind resp))))
  /\ (forall p action,
        cancelOrderAction ts nonce p = Ok action ->
        receive actionCoder receiptCoder sendFn (sessionSign signFn) action
        = Ok resp ->
        (forall o, proto.receiptKind resp <> Some (proto.cancelOrderResult o)) ->
        cancelOrderImpl actionCoder receiptCoder sendFn signFn ts nonce p
        = Err (UnexpectedReceiptKind (proto.caseOf (proto.receiptKind resp))))
  /\ (forall p action,
        transferAction ts nonce p = Ok action ->
        receive actionCoder receiptCoder sendFn (sessionSign signFn) action
        = Ok resp ->
        (forall v, proto.receiptKind resp <> Some (proto.transferred v)) ->
        transferImpl actionCoder receiptCoder sendFn signFn ts nonce p
        = Err (UnexpectedReceiptKind (proto.caseOf (proto.receiptKind resp)))).
Proof.
  intros Hne.
  repeat split; intros p action Ha Hr Hk;
    [ unfold createSessionImpl | unfold placeOrderImpl
    | unfold cancelOrderImpl | unfold transferImpl ];
    rewrite Ha; cbn [bind];
    change (fun m : bytes => walletSign walletSignFn m)
      with (walletSign walletSignFn);
    change (fun m : bytes => sessionSign signFn m)
      with (sessionSign signFn);
    erewrite sendAction_not_err by eassumption; cbn [bind];
    destruct (proto.receiptKind resp) as [[c|s|o|o|v|c]|];
    try reflexivity; exfalso; eapply Hk; reflexivity.
Qed.

(** C2.  [revokeSessionImpl] and [withdrawImpl] drop the receipt that
    [sendAction] returns: once the receipt is not an [err], they succeed
    whatever its kind, so a receipt whose kind does not answer the
    submitted action raises no unexpected-receipt-kind error there. *)
Theorem revoke_and_withdraw_accept_any_receipt_kind
  (walletSignFn : bytes -> result string) (signFn : bytes -> result bytes)
  (ts nonce : Z) (resp : proto.Receipt) :
  (forall code, proto.receiptKind resp <> Some (proto.err code)) ->
  (forall p action,
     revokeSessionAction ts nonce p = Ok action ->
     receive actionCoder receiptCoder sendFn (walletSign walletSignFn) action
     = Ok resp ->
     revokeSessionImpl actionCoder receiptCoder sendFn walletSignFn ts nonce p
     = Ok tt)
  /\ (forall p action,
        withdrawAction ts nonce p = Ok action ->
        receive actionCoder receiptCoder sendFn (sessionSign signFn) action
        = Ok resp ->
        withdrawImpl actionCoder receiptCoder sendFn signFn ts nonce p
        = Ok tt).
Proof.
  intros Hne.
  split; intros p action Ha Hr;
    [ unfold revokeSessionImpl | unfold withdrawImpl ];
    rewrite Ha; cbn [bind];
    change (fun m : bytes => walletSign walletSignFn m)
      with (walletSign walletSignFn);
    change (fun m : bytes => sessionSign signFn m)
      with (sessionSign signFn);
    erewrite sendAction_not_err by eassumption; reflexivity.
Qed.

(** C10.  When the receipt is a [placeOrderResult] without [posted],
    [placeOrderImpl] succeeds and returns no order id. *)
Theorem placeOrder_without_posted_returns_undefined
  (signFn : bytes -> result bytes) (ts nonce : Z)
  (p : PlaceOrderParams.t) (action : proto.Action) (resp : proto.Receipt) :
  placeOrderAction ts nonce p = Ok action ->
  receive actionCoder receiptCoder sendFn (sessionSign signFn) action
  = Ok resp ->
  proto.receiptKind resp = Some (proto.placeOrderResult None) ->
  placeOrderImpl actionCoder receiptCoder sendFn signFn ts nonce p = Ok None.
Proof.
  intros Ha Hr Hk. unfold placeOrderImpl. rewrite Ha. cbn [bind].
  change (fun m : bytes => sessionSign signFn m) with (sessionSign signFn).
  erewrite sendAction_not_err; [| exact Hr | intros c; rewrite Hk; discriminate].
  cbn [bind]. rewrite Hk. reflexivity.
Qed.

End Receipts.

Lemma revoke_and_withdraw_accept_any_receipt_kind_witness :
  let resp := proto.mkReceipt (Some (proto.placeOrderResult None)) in
  revokeSessionImpl TestDoubles.actionCoder TestDoubles.receiptCoder
    (TestDoubles.respondWith resp) (TestDoubles.walletSigner [xaa; x1b])
    0 0 (RevokeSessionParams.mk 5) = Ok tt
  /\ withdrawImpl TestDoubles.actionCoder TestDoubles.receiptCoder
       (TestDoubles.respondWith resp) (TestDoubles.sessionSigner [xaa])
       0 0 (WithdrawParams.mk 6 5 1 (ofZ 2)) = Ok tt.
Proof.
  intros resp.
  assert (Hne : forall code, proto.receiptKind resp <> Some (proto.err code))
    by (intros code; discriminate).
  split.
  - eapply (proj1 (revoke_and_withdraw_accept_any_receipt_kind
                     TestDoubles.actionCoder TestDoubles.receiptCoder
                     (TestDoubles.respondWith resp)
                     (TestDoubles.walletSigner [xaa; x1b])
                     (TestDoubles.sessionSigner [xaa]) 0 0 resp Hne)).
    + reflexivity.
    + vm_compute. reflexivity.
  - eapply (proj2 (revoke_and_withdraw_accept_any_receipt_kind
                     TestDoubles.actionCoder TestDoubles.receiptCoder
                     (TestDoubles.respondWith resp)
                     (TestDoubles.walletSigner [xaa; x1b])
                     (TestDoubles.sessionSigner [xaa]) 0 0 resp Hne)).
    + vm_compute. reflexivity.
    + vm_compute. reflexivity.
Defined.

Lemma placeOrder_without_posted_returns_undefined_witness :
  placeOrderImpl TestDoubles.actionCoder TestDoubles.receiptCoder
    (TestDoubles.respondWith (proto.mkReceipt (Some (proto.placeOrderResult None))))
    (TestDoubles.sessionSigner [xaa]) 0 0
    (PlaceOrderParams.mk 42 None None 6 2 9 Types.Ask Types.Limit false
       (Some (ofZ 1)) (Some (ofZ 1)) None (Some 350))
  = Ok None.
Proof.
  eapply (placeOrder_without_posted_returns_undefined
            TestDoubles.actionCoder TestDoubles.receiptCoder
            (TestDoubles.respondWith
               (proto.mkReceipt (Some (proto.placeOrderResult None))))
            (TestDoubles.sessionSigner [xaa]) 0 0).
  - vm_compute. reflexivity.
  - vm_compute. reflexivity.
  - reflexivity.
Defined.

(** ** The PlaceOrder builder *)

(** The parameters of the end-to-end scenario: [price = 1], [size = 1],
    [priceDecimals = 2], [sizeDecimals = 6]; everything else is left to
    the caller. *)
Lemma placeOrderAction_scenario (ts nonce sessionId marketId : Z)
  (senderId liquidateeId clientOrderId : option Z) (side : Types.Side)
  (fillMode : Types.FillMode) (isReduceOnly : bool)
  (quoteSize : option Decimal) (q : Z) :
  In fillMode [Types.Limit; Types.PostOnly; Types.ImmediateOrCancel;
               Types.FillOrKill] ->
  toScaledU128 (orZero quoteSize) 8 = Ok q ->
  0 <= q <= 2 ^ 128 - 1 ->
  exists mode,
    placeOrderAction ts nonce
      (PlaceOrderParams.mk sessionId senderId liquidateeId 6 2 marketId side
         fillMode isReduceOnly (Some (ofZ 1)) (Some (ofZ 1)) quoteSize
         clientOrderId)
    = Ok (proto.mkAction ts nonce
            (Some (proto.placeOrder
                     (proto.PlaceOrder.mk sessionId senderId marketId
                        (match side with
                         | Types.Bid => proto.BID
                         | Types.Ask => proto.ASK
                         end)
                        mode isReduceOnly 100 1000000
                        (Some (proto.mkU128 (q mod 2 ^ 64) (q / 2 ^ 64)))
                        clientOrderId liquidateeId)))).
Proof.
  intros Hm Hq Hr. unfold placeOrderAction.
  cbn [PlaceOrderParams.price PlaceOrderParams.size PlaceOrderParams.quoteSize
       PlaceOrderParams.priceDecimals PlaceOrderParams.sizeDecimals
       PlaceOrderParams.fillMode PlaceOrderParams.sessionId
       PlaceOrderParams.senderId PlaceOrderParams.liquidateeId
       PlaceOrderParams.marketId PlaceOrderParams.side
       PlaceOrderParams.isReduceOnly PlaceOrderParams.clientOrderId orZero].
  change (toScaledU64 (ofZ 1) 2) with (@Ok Z 100).
  change (toScaledU64 (ofZ 1) 6) with (@Ok Z 1000000).
  change (2 + 6)%N with 8%N. rewrite Hq. cbn [bind].
  rewrite (bigIntToProtoU128_in_range q Hr).
  cbn [In] in Hm.
  destruct Hm as [<- | [<- | [<- | [<- | []]]]];
    eexists; destruct clientOrderId; reflexivity.
Qed.

(** C3, as the code has it.  A PlaceOrder built with [price = 1],
    [size = 1], [priceDecimals = 2], [sizeDecimals = 6] and any of the
    four fill modes carries the
    scaled price 100 and the scaled size 1000000; its [quoteSize] is the
    split of the caller's [quoteSize] scaled by [10^(2+6)]:
    [{lo: 100000000, hi: 0}] when the caller passes [quoteSize = 1], and
    [{lo: 0, hi: 0}] when the caller passes none. *)
Theorem placeOrder_scenario_spec (ts nonce sessionId marketId : Z)
  (senderId liquidateeId clientOrderId : option Z) (side : Types.Side)
  (fillMode : Types.FillMode) (isReduceOnly : bool) :
  In fillMode [Types.Limit; Types.PostOnly; Types.ImmediateOrCancel;
               Types.FillOrKill] ->
  let build quoteSize :=
    placeOrderAction ts nonce
      (PlaceOrderParams.mk sessionId senderId liquidateeId 6 2 marketId side
         fillMode isReduceOnly (Some (ofZ 1)) (Some (ofZ 1)) quoteSize
         clientOrderId) in
  (exists po,
     build (Some (ofZ 1)) = Ok (proto.mkAction ts nonce (Some (proto.placeOrder po)))
     /\ proto.PlaceOrder.price po = 100
     /\ proto.PlaceOrder.size po = 1000000
     /\ proto.PlaceOrder.quoteSize po = Some (proto.mkU128 100000000 0))
  /\ (exists po,
        build None = Ok (proto.mkAction ts nonce (Some (proto.placeOrder po)))
        /\ proto.PlaceOrder.price po = 100
        /\ proto.PlaceOrder.size po = 1000000
        /\ proto.PlaceOrder.quoteSize po = Some (proto.mkU128 0 0)).
Proof.
  intros Hm build. split.
  - destruct (placeOrderAction_scenario ts nonce sessionId marketId senderId
                liquidateeId clientOrderId side fillMode isReduceOnly
                (Some (ofZ 1)) 100000000) as [mode Hb];
      [exact Hm | reflexivity | lia |].
    eexists. split; [exact Hb|]. repeat split.
  - destruct (placeOrderAction_scenario ts nonce sessionId marketId senderId
                liquidateeId clientOrderId side fillMode isReduceOnly
                None 0) as [mode Hb];
      [exact Hm | reflexivity | lia |].
    eexists. split; [exact Hb|]. repeat split.
Qed.

(** C3 as stated fails: with no [quoteSize] among the parameters the
    action does not carry [{lo: 100000000, hi: 0}]. *)
Lemma placeOrder_scenario_counterexample :
  ~ exists po,
      placeOrderAction 0 0
        (PlaceOrderParams.mk 42 None None 6 2 9 Types.Ask Types.Limit false
           (Some (ofZ 1)) (Some (ofZ 1)) None None)
      = Ok (proto.mkAction 0 0 (Some (proto.placeOrder po)))
      /\ proto.PlaceOrder.price po = 100
      /\ proto.PlaceOrder.size po = 1000000
      /\ proto.PlaceOrder.quoteSize po = Some (proto.mkU128 100000000 0).
Proof.
  intros [po [Hb [_ [_ Hq]]]].
  vm_compute in Hb. injection Hb as Hb. subst po. discriminate Hq.
Qed.

Lemma placeOrder_scenario_spec_witness :
  (exists po,
     placeOrderAction 0 0
       (PlaceOrderParams.mk 42 None None 6 2 9 Types.Ask Types.Limit false
          (Some (ofZ 1)) (Some (ofZ 1)) (Some (ofZ 1)) None)
     = Ok (proto.mkAction 0 0 (Some (proto.placeOrder po)))
     /\ proto.PlaceOrder.price po = 100
     /\ proto.PlaceOrder.size po = 1000000
     /\ proto.PlaceOrder.quoteSize po = Some (proto.mkU128 100000000 0))
  /\ (exists po,
        placeOrderAction 0 0
          (PlaceOrderParams.mk 42 None None 6 2 9 Types.Ask Types.Limit false
             (Some (ofZ 1)) (Some (ofZ 1)) None None)
        = Ok (proto.mkAction 0 0 (Some (proto.placeOrder po)))
        /\ proto.PlaceOrder.price po = 100
        /\ proto.PlaceOrder.size po = 1000000
        /\ proto.PlaceOrder.quoteSize po = Some (proto.mkU128 0 0)).
Proof.
  apply (placeOrder_scenario_spec 0 0 42 9 None None None Types.Ask
           Types.Limit false).
  simpl. left. reflexivity.
Defined.

(** ** Length-delimited framing *)

Lemma byteToZ_byteOfZ (z : Z) : 0 <= z < 256 -> byteToZ (byteOfZ z) = z.
Proof.
  intros Hz. unfold byteToZ, byteOfZ. rewrite Z.mod_small by exact Hz.
  destruct (Byte.of_N (Z.to_N z)) as [b|] eqn:E.
  - apply Byte.to_of_N in E. rewrite E. lia.
  - apply Byte.of_N_None_iff in E. lia.
Qed.

Lemma lor_shiftl_add (a b k : Z) :
  0 <= k -> 0 <= a < 2 ^ k -> Z.lor a (Z.shiftl b k) = a + b * 2 ^ k.
Proof.
  intros Hk Ha.
  assert (Hd : Z.land a (Z.shiftl b k) = 0).
  { apply Z.bits_inj'. intros i Hi. rewrite Z.land_spec, Z.bits_0.
    destruct (Z.lt_ge_cases i k) as [Hlt|Hge].
    - rewrite Z.shiftl_spec_low by lia. apply andb_false_r.
    - rewrite <- (Z.mod_small a (2 ^ k)) by exact Ha.
      rewrite Z.mod_pow2_bits_high by lia. reflexivity. }
  rewrite <- Z.lxor_lor by exact Hd.
  rewrite <- Z.add_nocarry_lxor by exact Hd.
  rewrite Z.shiftl_mul_pow2 by exact Hk. reflexivity.
Qed.

Lemma land_127 (x : Z) : Z.land x 127 = x mod 128.
Proof. change 127 with (Z.ones 7). rewrite Z.land_ones by lia. reflexivity. Qed.

Lemma land_15 (x : Z) : Z.land x 15 = x mod 16.
Proof. change 15 with (Z.ones 4). rewrite Z.land_ones by lia. reflexivity. Qed.

Lemma land_128_eqb_byte (b : byte) :
  (Z.land (byteToZ b) 128 =? 0) = (byteToZ b <? 128).
Proof. destruct b; reflexivity. Qed.

Lemma land_128_eqb (x : Z) : 0 <= x < 256 -> (Z.land x 128 =? 0) = (x <? 128).
Proof.
  intros Hx. rewrite <- (byteToZ_byteOfZ x Hx). apply land_128_eqb_byte.
Qed.

Lemma lor_128 (m : Z) : 0 <= m < 128 -> Z.lor m 128 = m + 128.
Proof.
  intros Hm. change 128 with (Z.shiftl 1 7) at 1.
  rewrite lor_shiftl_add by lia. reflexivity.
Qed.

Lemma cont_byte (v : Z) :
  byteToZ (byteOfZ (Z.lor (Z.land v 127) 128)) = v mod 128 + 128.
Proof.
  rewrite land_127.
  pose proof (Z.mod_pos_bound v 128 ltac:(lia)).
  rewrite lor_128 by lia. apply byteToZ_byteOfZ. lia.
Qed.

Lemma cont_byte_flag (v : Z) :
  (Z.land (byteToZ (byteOfZ (Z.lor (Z.land v 127) 128))) 128 =? 0) = false.
Proof.
  rewrite cont_byte.
  pose proof (Z.mod_pos_bound v 128 ltac:(lia)).
  rewrite land_128_eqb by lia. apply Z.ltb_ge. lia.
Qed.

Lemma cont_byte_low (v : Z) :
  Z.land (byteToZ (byteOfZ (Z.lor (Z.land v 127) 128))) 127 = v mod 128.
Proof.
  rewrite cont_byte, land_127.
  pose proof (Z.mod_pos_bound v 128 ltac:(lia)).
  replace (v mod 128 + 128) with (v mod 128 + 1 * 128) by lia.
  rewrite Z.mod_add by lia. apply Z.mod_small. lia.
Qed.

Lemma last_byte_flag (w : Z) :
  0 <= w < 128 -> (Z.land (byteToZ (byteOfZ w)) 128 =? 0) = true.
Proof.
  intros Hw. rewrite byteToZ_byteOfZ by lia.
  rewrite land_128_eqb by lia. apply Z.ltb_lt. lia.
Qed.

Lemma last_byte_low (w : Z) :
  0 <= w < 128 -> Z.land (byteToZ (byteOfZ w)) 127 = w.
Proof.
  intros Hw. rewrite byteToZ_byteOfZ by lia.
  rewrite land_127. apply Z.mod_small. lia.
Qed.

Lemma last_byte_low4 (w : Z) :
  0 <= w < 16 -> Z.land (byteToZ (byteOfZ w)) 15 = w.
Proof.
  intros Hw. rewrite byteToZ_byteOfZ by lia.
  rewrite land_15. apply Z.mod_small. lia.
Qed.

Lemma assertBounds_ok (buf : bytes) (pos : nat) (v : Z) :
  (pos <= List.length buf)%nat -> Wire.assertBounds buf pos v = Ok (v, pos).
Proof.
  intros H. unfold Wire.assertBounds.
  destruct (Nat.ltb_spec (List.length buf) pos); [lia | reflexivity].
Qed.

Ltac read_prefix :=
  unfold Wire.readUint32;
  cbn [app Wire.bufAt nth_error Nat.add Wire.skipHighBytes];
  repeat rewrite cont_byte_flag;
  repeat (rewrite last_byte_flag by lia);
  rewrite ?cont_byte_low;
  repeat first [ rewrite last_byte_low by lia | rewrite last_byte_low4 by lia ];
  rewrite assertBounds_ok by (cbn [List.length]; lia);
  try rewrite (lor_shiftl_add _ _ 7) by lia;
  try rewrite (lor_shiftl_add _ _ 14) by lia;
  try rewrite (lor_shiftl_add _ _ 21) by lia;
  try rewrite (lor_shiftl_add _ _ 28) by lia;
  cbn [List.length]; do 2 f_equal; try lia.

Lemma readUint32_write (n : Z) (rest : bytes) :
  0 <= n <= 4294967295 ->
  Wire.readUint32 (Wire.varint32write 4 n ++ rest) 0
  = Ok (n, List.length (Wire.varint32write 4 n)).
Proof.
  intros Hn.
  pose proof (Z.div_mod n 128 ltac:(lia)) as E0.
  pose proof (Z.mod_pos_bound n 128 ltac:(lia)) as B0.
  set (n1 := n / 128) in *.
  pose proof (Z.div_mod n1 128 ltac:(lia)) as E1.
  pose proof (Z.mod_pos_bound n1 128 ltac:(lia)) as B1.
  set (n2 := n1 / 128) in *.
  pose proof (Z.div_mod n2 128 ltac:(lia)) as E2.
  pose proof (Z.mod_pos_bound n2 128 ltac:(lia)) as B2.
  set (n3 := n2 / 128) in *.
  pose proof (Z.div_mod n3 128 ltac:(lia)) as E3.
  pose proof (Z.mod_pos_bound n3 128 ltac:(lia)) as B3.
  set (n4 := n3 / 128) in *.
  unfold Wire.varint32write.
  rewrite !Z.shiftr_div_pow2 by lia. change (2 ^ 7) with 128.
  fold n1. fold n2. fold n3. fold n4.
  destruct (Z.ltb_spec 127 n) as [H0|H0]; [|read_prefix].
  destruct (Z.ltb_spec 127 n1) as [H1|H1]; [|read_prefix].
  destruct (Z.ltb_spec 127 n2) as [H2|H2]; [|read_prefix].
  destruct (Z.ltb_spec 127 n3) as [H3|H3]; [|read_prefix].
  read_prefix.
Qed.

Lemma writeUint32_ok (n : Z) :
  0 <= n <= 4294967295 -> Wire.writeUint32 n = Ok (Wire.varint32write 4 n).
Proof.
  intros Hn. unfold Wire.writeUint32.
  destruct (Z.leb_spec 0 n); [|lia].
  destruct (Z.leb_spec n 4294967295); [reflexivity | lia].
Qed.

Lemma byteLength_nonneg (b : bytes) : 0 <= byteLength b.
Proof. unfold byteLength. lia. Qed.

Lemma byteLength_app (a b : bytes) :
  byteLength (a ++ b) = byteLength a + byteLength b.
Proof. unfold byteLength. rewrite length_app. lia. Qed.

Lemma slice_middle (pre payload extra : bytes) :
  slice (pre ++ payload ++ extra) (byteLength pre)
    (byteLength pre + byteLength payload)
  = payload.
Proof.
  unfold slice, byteLength.
  replace (Z.to_nat (Z.of_nat (List.length pre)
                     + Z.of_nat (List.length payload)
                     - Z.of_nat (List.length pre)))
    with (List.length payload) by lia.
  rewrite Nat2Z.id, skipn_app, skipn_all, Nat.sub_diag.
  cbn [app skipn]. rewrite firstn_app, firstn_all, Nat.sub_diag.
  cbn [firstn]. apply app_nil_r.
Qed.

Lemma slice_length (b : bytes) (start len : Z) :
  0 <= start -> 0 <= len -> start + len <= byteLength b ->
  byteLength (slice b start (start + len)) = len.
Proof.
  intros Hs Hl Hb. unfold slice, byteLength in *.
  rewrite length_firstn, length_skipn. lia.
Qed.

Lemma readUint32_nonneg (buf : bytes) (pos : nat) (v : Z) (p : nat) :
  Wire.readUint32 buf pos = Ok (v, p) -> 0 <= v.
Proof.
  assert (Hb : forall i, 0 <= Wire.bufAt buf i).
  { intros i. unfold Wire.bufAt.
    destruct (nth_error buf i); [unfold byteToZ|]; lia. }
  assert (Hl : forall x m, 0 <= x -> 0 <= Z.land x m).
  { intros x m Hx. apply Z.land_nonneg. left. exact Hx. }
  assert (Hs : forall x k, 0 <= x -> 0 <= Z.shiftl x k).
  { intros x k Hx. apply Z.shiftl_nonneg. exact Hx. }
  assert (Ho : forall x y, 0 <= x -> 0 <= y -> 0 <= Z.lor x y).
  { intros x y Hx Hy. apply Z.lor_nonneg. split; assumption. }
  assert (Ha : forall q x, Wire.assertBounds buf q x = Ok (v, p) -> x = v).
  { intros q x. unfold Wire.assertBounds.
    destruct (List.length buf <? q)%nat; [discriminate|].
    intros E. injection E as E _. exact E. }
  unfold Wire.readUint32.
  repeat match goal with
         | |- (if ?c then _ else _) = _ -> _ => destruct c
         | |- (let '(_, _) := ?c in _) = _ -> _ => destruct c
         end;
    try discriminate; intros E; apply Ha in E; subst v; auto 20.
Qed.

Section Framing.
Context {T : Type} (coder : proto.MessageFns T).

Lemma encodeLengthDelimited_payload (message : T) (payload : bytes) :
  proto.encode message = Ok payload ->
  encodeLengthDelimited coder message
  = if MAX_PAYLOAD_SIZE <? byteLength payload
    then Err (PayloadTooLarge (byteLength payload))
    else Ok (Wire.varint32write 4 (byteLength payload) ++ payload).
Proof.
  intros He. unfold encodeLengthDelimited. rewrite He. cbn [bind].
  destruct (Z.ltb_spec MAX_PAYLOAD_SIZE (byteLength payload)) as [H|H];
    [reflexivity|].
  change MAX_PAYLOAD_SIZE with 102400 in H.
  pose proof (byteLength_nonneg payload).
  rewrite writeUint32_ok by lia. reflexivity.
Qed.

Lemma decodeLengthDelimited_prefix (buf : bytes) (msgLength : Z) (pos : nat) :
  Wire.readUint32 buf 0 = Ok (msgLength, pos) ->
  decodeLengthDelimited coder buf
  = if MAX_PAYLOAD_SIZE <? msgLength
    then Err (PayloadTooLarge msgLength)
    else if byteLength buf <? Z.of_nat pos + msgLength
    then Err (BufferTooShort msgLength (byteLength buf - Z.of_nat pos))
    else proto.decode (slice buf (Z.of_nat pos) (Z.of_nat pos + msgLength)).
Proof.
  intros Hr. unfold decodeLengthDelimited. rewrite Hr. reflexivity.
Qed.

Lemma decodeLengthDelimited_frame (payload extra : bytes) :
  byteLength payload <= MAX_PAYLOAD_SIZE ->
  decodeLengthDelimited coder
    (Wire.varint32write 4 (byteLength payload) ++ payload ++ extra)
  = proto.decode payload.
Proof.
  intros Hp. change MAX_PAYLOAD_SIZE with 102400 in Hp.
  pose proof (byteLength_nonneg payload) as H0.
  pose proof (byteLength_nonneg extra) as H1.
  rewrite (decodeLengthDelimited_prefix _ (byteLength payload)
             (List.length (Wire.varint32write 4 (byteLength payload))))
    by (apply readUint32_write; lia).
  change MAX_PAYLOAD_SIZE with 102400.
  destruct (Z.ltb_spec 102400 (byteLength payload)); [lia|].
  fold (byteLength (Wire.varint32write 4 (byteLength payload))).
  rewrite !byteLength_app.
  destruct (Z.ltb_spec
              (byteLength (Wire.varint32write 4 (byteLength payload))
               + (byteLength payload + byteLength extra))
              (byteLength (Wire.varint32write 4 (byteLength payload))
               + byteLength payload)); [lia|].
  rewrite slice_middle. reflexivity.
Qed.

Lemma length_delimited_roundtrip_generic (message : T) (frame : bytes) :
  (forall payload,
     proto.encode message = Ok payload -> proto.decode payload = Ok message) ->
  encodeLengthDelimited coder message = Ok frame ->
  decodeLengthDelimited coder frame = Ok message.
Proof.
  intros Hrt He.
  destruct (proto.encode message) as [payload|e] eqn:Hp.
  - rewrite (encodeLengthDelimited_payload message payload Hp) in He.
    destruct (Z.ltb_spec MAX_PAYLOAD_SIZE (byteLength payload)) as [H|H];
      [discriminate|].
    assert (Hf : Wire.varint32write 4 (byteLength payload) ++ payload ++ []
                 = frame) by (rewrite app_nil_r; congruence).
    rewrite <- Hf, decodeLengthDelimited_frame by exact H.
    apply Hrt. reflexivity.
  - unfold encodeLengthDelimited in He. rewrite Hp in He. discriminate.
Qed.

End Framing.

(** C5.  For every action whose length-delimited encoding succeeds,
    decoding that encoding returns the action itself, provided the schema
    coder reads back what it wrote for this action (the generated coder is
    the parameter [coder] of both functions). *)
Theorem action_length_delimited_roundtrip
  (coder : proto.MessageFns proto.Action) (action : proto.Action)
  (frame : bytes) :
  (forall payload,
     proto.encode action = Ok payload -> proto.decode payload = Ok action) ->
  encodeLengthDelimited coder action = Ok frame ->
  decodeLengthDelimited coder frame = Ok action.
Proof.
  apply length_delimited_roundtrip_generic.
Qed.

Lemma action_length_delimited_roundtrip_witness :
  let action :=
    proto.mkAction 0 0
      (Some (proto.placeOrder
               (proto.PlaceOrder.mk 42 None 9 proto.ASK proto.LIMIT false
                  12 39 (Some (proto.mkU128 54 55)) (Some 350) None))) in
  exists frame,
    encodeLengthDelimited TestDoubles.actionCoder action = Ok frame
    /\ decodeLengthDelimited TestDoubles.actionCoder frame = Ok action.
Proof.
  intros action.
  destruct (encodeLengthDelimited TestDoubles.actionCoder action)
    as [frame|e] eqn:He; [|vm_compute in He; discriminate He].
  exists frame. split; [reflexivity|].
  apply (action_length_delimited_roundtrip TestDoubles.actionCoder action frame).
  - intros payload Hp. vm_compute in Hp. injection Hp as <-.
    vm_compute. reflexivity.
  - exact He.
Defined.

(** The six variants, optional fields present and absent, through the
    stand-in coder. *)
Example length_delimited_roundtrip_six_variants :
  Forall (fun action =>
            bind (encodeLengthDelimited TestDoubles.actionCoder action)
              (decodeLengthDelimited TestDoubles.actionCoder)
            = Ok action)
    [ proto.mkAction 7 0
        (Some (proto.createSession
                 (proto.CreateSession.mk (repeat x02 33) (repeat x01 32) 99)));
      proto.mkAction 7 1 (Some (proto.revokeSession (proto.RevokeSession.mk 5)));
      proto.mkAction 7 2 (Some (proto.withdraw (proto.Withdraw.mk 5 1 2000000)));
      proto.mkAction 7 3
        (Some (proto.placeOrder
                 (proto.PlaceOrder.mk 42 (Some 3) 9 proto.BID
                    proto.FILL_OR_KILL true 12 39 None None (Some 8))));
      proto.mkAction 7 4
        (Some (proto.placeOrder
                 (proto.PlaceOrder.mk 42 None 9 proto.ASK proto.LIMIT false
                    12 39 (Some (proto.mkU128 54 55)) (Some 350) None)));
      proto.mkAction 7 5
        (Some (proto.cancelOrderById
                 (proto.CancelOrderById.mk 11 42 (Some 3) None)));
      proto.mkAction 7 6
        (Some (proto.cancelOrderById
                 (proto.CancelOrderById.mk 11 42 None (Some 4))));
      proto.mkAction 7 7
        (Some (proto.transfer (proto.Transfer.mk 42 0 (Some 1) 2 500)));
      proto.mkAction 7 8
        (Some (proto.transfer (proto.Transfer.mk 42 0 None 2 500)));
      proto.mkAction 7 9 None ].
Proof.
  repeat constructor.
Qed.

(** C6.  Once the schema coder has produced a payload,
    [encodeLengthDelimited] fails with the oversize error exactly when the
    payload is longer than 100 * 1024 bytes, and otherwise returns the
    varint of the length followed by the payload.  Once the length prefix
    of a buffer has been read, [decodeLengthDelimited] fails with the
    oversize error when the declared length exceeds the cap; else with the
    truncated error when it exceeds the bytes that remain; else it hands
    the schema decoder the slice of exactly the declared length, whatever
    follows it: bytes after a complete frame change nothing. *)
Theorem length_delimited_limits {T : Type} (coder : proto.MessageFns T) :
  (forall (message : T) (payload : bytes),
     proto.encode message = Ok payload ->
     (encodeLengthDelimited coder message
      = Err (PayloadTooLarge (byteLength payload))
      <-> 100 * 1024 < byteLength payload)
     /\ (byteLength payload <= 100 * 1024 ->
         encodeLengthDelimited coder message
         = Ok (Wire.varint32write 4 (byteLength payload) ++ payload)))
  /\ (forall (buf : bytes) (msgLength : Z) (pos : nat),
        Wire.readUint32 buf 0 = Ok (msgLength, pos) ->
        let startsAt := Z.of_nat pos in
        (100 * 1024 < msgLength ->
         decodeLengthDelimited coder buf = Err (PayloadTooLarge msgLength))
        /\ (msgLength <= 100 * 1024 ->
            byteLength buf < startsAt + msgLength ->
            decodeLengthDelimited coder buf
            = Err (BufferTooShort msgLength (byteLength buf - startsAt)))
        /\ (msgLength <= 100 * 1024 ->
            startsAt + msgLength <= byteLength buf ->
            decodeLengthDelimited coder buf
            = proto.decode (slice buf startsAt (startsAt + msgLength))
            /\ byteLength (slice buf startsAt (startsAt + msgLength))
               = msgLength))
  /\ (forall payload extra : bytes,
        byteLength payload <= 100 * 1024 ->
        decodeLengthDelimited coder
          (Wire.varint32write 4 (byteLength payload) ++ payload ++ extra)
        = proto.decode payload).
Proof.
  change (100 * 1024) with 102400.
  split; [|split].
  - intros message payload He.
    rewrite (encodeLengthDelimited_payload coder message payload He).
    change MAX_PAYLOAD_SIZE with 102400.
    destruct (Z.ltb_spec 102400 (byteLength payload)) as [H|H].
    + split; [split; [intros _; exact H | reflexivity] | lia].
    + split; [split; [discriminate | lia] | reflexivity].
  - intros buf msgLength pos Hr startsAt.
    rewrite (decodeLengthDelimited_prefix coder buf msgLength pos Hr).
    fold startsAt. change MAX_PAYLOAD_SIZE with 102400.
    pose proof (readUint32_nonneg buf 0 msgLength pos Hr) as Hnn.
    destruct (Z.ltb_spec 102400 msgLength) as [H|H].
    + split; [reflexivity | split; lia].
    + destruct (Z.ltb_spec (byteLength buf) (startsAt + msgLength)) as [Hb|Hb].
      * split; [lia | split; [reflexivity | lia]].
      * split; [lia | split; [lia|]].
        intros _ _. split; [reflexivity|].
        apply slice_length; unfold startsAt; lia.
  - intros payload extra Hp.
    apply decodeLengthDelimited_frame. exact Hp.
Qed.

Lemma length_delimited_limits_witness :
  (* a 300-byte frame cut short, and a complete frame with a trailing byte *)
  decodeLengthDelimited TestDoubles.receiptCoder [xac; x02; x00]
  = Err (BufferTooShort 300 (3 - 2))
  /\ decodeLengthDelimited TestDoubles.receiptCoder
       (Wire.varint32write 4 (byteLength [x00]) ++ [x00] ++ [xff])
     = @proto.decode _ TestDoubles.receiptCoder [x00].
Proof.
  split.
  - apply (proj1 (proj2 (proj1 (proj2
             (length_delimited_limits TestDoubles.receiptCoder))
             [xac; x02; x00] 300 2%nat eq_refl))).
    + discriminate.
    + reflexivity.
  - apply (proj2 (proj2 (length_delimited_limits TestDoubles.receiptCoder))
             [x00] [xff]).
    discriminate.
Defined.

(** ** The scaled-integer conversion *)

Lemma digits_aux_spec (fuel : nat) (n : N) :
  (0 < n)%N -> (n < 2 ^ N.of_nat fuel)%N ->
  (10 ^ (digits_aux fuel n - 1) <= n < 10 ^ digits_aux fuel n)%N.
Proof.
  revert n. induction fuel as [|f IH]; intros n Hpos Hlt.
  - cbn in Hlt. lia.
  - cbn [digits_aux].
    destruct (N.ltb_spec n 10) as [Hs|Hs].
    + cbn. lia.
    + assert (Hq : (0 < n / 10)%N).
      { apply N.div_str_pos. lia. }
      assert (Hf : (n / 10 < 2 ^ N.of_nat f)%N).
      { rewrite Nat2N.inj_succ, N.pow_succ_r' in Hlt.
        apply N.Div0.div_lt_upper_bound. lia. }
      specialize (IH (n / 10)%N Hq Hf).
      pose proof (N.div_mod n 10 ltac:(lia)) as Hdm.
      pose proof (N.mod_lt n 10 ltac:(lia)) as Hm.
      set (k := digits_aux f (n / 10)) in *.
      assert (Hk : (1 <= k)%N).
      { destruct (N.eq_dec k 0) as [E|E]; [|lia].
        rewrite E in IH. cbn in IH. lia. }
      replace (N.succ k - 1)%N with (N.succ (k - 1)) by lia.
      rewrite !N.pow_succ_r'.
      clearbody k.
      generalize dependent (10 ^ (k - 1))%N. generalize dependent (10 ^ k)%N.
      generalize dependent (n / 10)%N. generalize dependent (n mod 10)%N.
      intros. lia.
Qed.

Lemma digits_spec (n : N) :
  (0 < n)%N -> (10 ^ (digits n - 1) <= n < 10 ^ digits n)%N.
Proof.
  intros Hpos. unfold digits. apply digits_aux_spec; [exact Hpos|].
  rewrite N2Nat.id. apply N.size_gt.
Qed.

Lemma digits_pos (n : N) : (1 <= digits n)%N.
Proof.
  unfold digits. destruct (N.to_nat (N.size n)); cbn [digits_aux]; [lia|].
  destruct (n <? 10)%N; lia.
Qed.

Lemma digits_unique (n k : N) :
  (1 <= k)%N -> (10 ^ (k - 1) <= n < 10 ^ k)%N -> digits n = k.
Proof.
  intros Hk [Hlo Hhi].
  assert (Hpos : (0 < n)%N).
  { pose proof (N.pow_nonzero 10 (k - 1) ltac:(lia)). lia. }
  destruct (digits_spec n Hpos) as [Dlo Dhi].
  pose proof (digits_pos n) as Dk.
  destruct (N.lt_trichotomy (digits n) k) as [H|[H|H]]; [|exact H|].
  - assert (10 ^ digits n <= 10 ^ (k - 1))%N
      by (apply N.pow_le_mono_r; lia). lia.
  - assert (10 ^ k <= 10 ^ (digits n - 1))%N
      by (apply N.pow_le_mono_r; lia). lia.
Qed.

Lemma digits_mul_pow10 (c a : N) :
  (0 < c)%N -> digits (10 ^ a * c) = (a + digits c)%N.
Proof.
  intros Hc. destruct (digits_spec c Hc) as [Dlo Dhi].
  pose proof (digits_pos c) as Dk.
  apply digits_unique; [lia|].
  replace (a + digits c - 1)%N with (a + (digits c - 1))%N by lia.
  rewrite !N.pow_add_r.
  pose proof (N.pow_nonzero 10 a ltac:(lia)).
  split; [apply N.mul_le_mono_l; exact Dlo | apply N.mul_lt_mono_pos_l; lia].
Qed.

(** *** Rational values *)
Lemma ten_nonzero : ~ (10 == 0)%Q.
Proof. discriminate. Qed.

Lemma Qpower10_nonneg (e : Z) : 0 <= e -> (10 ^ e == inject_Z (10 ^ e))%Q.
Proof. intros He. rewrite Zpower_Qpower by exact He. reflexivity. Qed.

Lemma toQ_rescale (s : bool) (c k : N) (e : Z) :
  (toQ (mkDecimal s (c * 10 ^ k) e) == toQ (mkDecimal s c (e + Z.of_N k)))%Q.
Proof.
  unfold toQ. cbn [neg coef exp].
  rewrite Qpower_plus by exact ten_nonzero.
  rewrite (Qpower10_nonneg (Z.of_N k)) by lia.
  rewrite N2Z.inj_mul, N2Z.inj_pow. change (Z.of_N 10) with 10.
  rewrite Z.mul_assoc, inject_Z_mult. ring.
Qed.

Lemma toQ_nonneg (x : Decimal) : neg x = false -> (0 <= toQ x)%Q.
Proof.
  intros Hs. unfold toQ. rewrite Hs.
  apply Qmult_le_0_compat.
  - change 0%Q with (inject_Z 0). rewrite <- Zle_Qle. lia.
  - apply Qpower_0_le. discriminate.
Qed.

Lemma Qfloor_div (a b : Z) :
  0 < b -> Qfloor (inject_Z a / inject_Z b) = a / b.
Proof.
  intros Hb. destruct b as [|p|p]; try lia.
  rewrite <- Qmake_Qdiv. reflexivity.
Qed.

Lemma Qfloor_toQ (x : Decimal) :
  neg x = false -> Qfloor (toQ x) = unitsAt 0 (truncated x).
Proof.
  intros Hs. unfold toQ, truncated, unitsAt. rewrite Hs.
  destruct (Z.leb_spec 0 (exp x)) as [He|He].
  - rewrite Hs, Z.sub_0_r, Z.mul_1_l.
    rewrite Qpower10_nonneg by exact He.
    rewrite <- inject_Z_mult. apply Qfloor_Z.
  - cbn [neg coef exp]. rewrite Z.mul_1_l.
    replace (exp x) with (- (- exp x)) at 1 by lia.
    rewrite Qpower_opp, Qpower10_nonneg by lia.
    change (inject_Z (Z.of_N (coef x)) * / inject_Z (10 ^ (- exp x)))%Q
      with (inject_Z (Z.of_N (coef x)) / inject_Z (10 ^ (- exp x)))%Q.
    rewrite Qfloor_div by (apply Z.pow_pos_nonneg; lia).
    rewrite N2Z.inj_div, N2Z.inj_pow, Z2N.id by lia.
    change (Z.of_N 10) with 10. change (10 ^ (0 - 0)) with 1.
    rewrite Z.mul_1_l, Z.mul_1_r. reflexivity.
Qed.

Lemma round_down_toQ (x : Decimal) :
  neg x = false -> round_down (toQ x) = unitsAt 0 (truncated x).
Proof.
  intros Hs. unfold round_down.
  rewrite (proj2 (Qle_bool_iff 0 (toQ x)) (toQ_nonneg x Hs)).
  apply Qfloor_toQ. exact Hs.
Qed.

(** *** Truncation, comparison and the conversion to [bigint] *)

Lemma truncated_shape (p : Decimal) :
  neg (truncated p) = neg p /\ 0 <= exp (truncated p).
Proof.
  unfold truncated. destruct (Z.leb_spec 0 (exp p)); cbn; split; auto; lia.
Qed.

Lemma unitsAt0_nonneg_exp (s : Decimal) :
  neg s = false -> 0 <= exp s ->
  unitsAt 0 s = Z.of_N (coef s) * 10 ^ exp s.
Proof.
  intros Hs He. unfold unitsAt. rewrite Hs, Z.sub_0_r. lia.
Qed.

Lemma isZero_units (s : Decimal) :
  neg s = false -> 0 <= exp s -> isZero s = (unitsAt 0 s =? 0).
Proof.
  intros Hs He. rewrite unitsAt0_nonneg_exp by assumption. unfold isZero.
  pose proof (Z.pow_pos_nonneg 10 (exp s) ltac:(lia) He) as Hp.
  destruct (N.eqb_spec (coef s) 0) as [E|E].
  - rewrite E. symmetry. apply Z.eqb_eq. lia.
  - symmetry. apply Z.eqb_neq. nia.
Qed.

Lemma greaterThan_units (s : Decimal) (M : Z) :
  neg s = false -> 0 <= exp s -> 0 <= M ->
  greaterThan s (ofZ M) = (M <? unitsAt 0 s).
Proof.
  intros Hs He HM. unfold greaterThan.
  assert (Hm : Z.min (exp s) (exp (ofZ M)) = 0).
  { cbn [ofZ exp]. lia. }
  rewrite Hm.
  assert (HMu : unitsAt 0 (ofZ M) = M).
  { unfold unitsAt, ofZ. cbn [neg coef exp].
    destruct (Z.ltb_spec M 0); [lia|].
    rewrite N2Z.inj_abs_N. change (10 ^ (0 - 0)) with 1. lia. }
  rewrite HMu. reflexivity.
Qed.

Lemma toBigInt_units (cfg : Config) (s : Decimal) :
  neg s = false -> 0 <= exp s -> 0 < toExpPos cfg -> toExpNeg cfg < 0 ->
  0 < unitsAt 0 s < 10 ^ toExpPos cfg ->
  toBigInt cfg s = Some (unitsAt 0 s).
Proof.
  intros Hs He HP HN [Hlo Hhi].
  rewrite unitsAt0_nonneg_exp in Hlo, Hhi by assumption.
  assert (Hc : (0 < coef s)%N).
  { destruct (N.eq_dec (coef s) 0) as [E|E]; [rewrite E in Hlo; lia | lia]. }
  destruct (digits_spec (coef s) Hc) as [Dlo _].
  pose proof (digits_pos (coef s)) as Dk.
  assert (Hsci : 0 <= sciExponent s < toExpPos cfg).
  { unfold sciExponent, isZero.
    destruct (N.eqb_spec (coef s) 0); [lia|].
    split; [lia|].
    apply (Z.pow_lt_mono_r_iff 10); [lia | lia |].
    eapply Z.le_lt_trans; [|exact Hhi].
    replace (Z.of_N (digits (coef s)) + exp s - 1)
      with (Z.of_N (digits (coef s) - 1) + exp s) by lia.
    rewrite Z.pow_add_r by lia.
    apply Z.mul_le_mono_nonneg_r; [apply Z.pow_nonneg; lia|].
    apply N2Z.inj_le in Dlo. rewrite N2Z.inj_pow in Dlo. exact Dlo. }
  unfold toBigInt.
  destruct (Z.leb_spec (sciExponent s) (toExpNeg cfg)); [lia|].
  destruct (Z.leb_spec (toExpPos cfg) (sciExponent s)); [lia|].
  cbn [orb]. destruct (Z.leb_spec 0 (exp s)); [reflexivity | lia].
Qed.

(** *** [pow] and [mul] on values that fit the precision *)

Lemma pow10_split (a k : N) : (k <= a)%N ->
  ((10 ^ a / 10 ^ k = 10 ^ (a - k)) /\ (10 ^ a) mod (10 ^ k) = 0)%N.
Proof.
  intros Hk.
  assert (E : (10 ^ a = 10 ^ (a - k) * 10 ^ k)%N).
  { rewrite <- N.pow_add_r. f_equal. lia. }
  pose proof (N.pow_nonzero 10 k ltac:(lia)) as Hnz.
  rewrite E. split.
  - apply N.div_mul. exact Hnz.
  - apply N.Div0.mod_mul.
Qed.

Lemma finalise_trailing_zeros (cfg : Config) (s : bool) (a c : N) (e : Z) :
  (0 < c)%N -> (digits c <= DecimalJs.precision cfg)%N ->
  exists a' k,
    finalise cfg (mkDecimal s (10 ^ a * c) e)
    = mkDecimal s (10 ^ a' * c) (e + Z.of_N k)
    /\ (a' + k = a)%N.
Proof.
  intros Hc Hd. unfold finalise. cbn [neg coef exp].
  rewrite digits_mul_pow10 by exact Hc.
  destruct (N.leb_spec (a + digits c) (DecimalJs.precision cfg)) as [H|H].
  - exists a, 0%N. split; [|lia]. f_equal. lia.
  - set (k := (a + digits c - DecimalJs.precision cfg)%N).
    assert (Hk : (k <= a)%N) by (unfold k; lia).
    pose proof (N.pow_nonzero 10 k ltac:(lia)) as Hnz.
    assert (E : (10 ^ a * c = (10 ^ (a - k) * c) * 10 ^ k)%N).
    { replace a with ((a - k) + k)%N at 1 by lia.
      rewrite N.pow_add_r. lia. }
    rewrite E, N.div_mul, N.Div0.mod_mul by exact Hnz.
    destruct (N.leb_spec (10 ^ k) (2 * 0)); [lia|].
    exists (a - k)%N, k. split; [reflexivity | lia].
Qed.

Lemma pow_Ten (cfg : Config) (d : N) :
  (1 <= DecimalJs.precision cfg)%N ->
  exists a k,
    pow cfg (ofZ 10) d = mkDecimal false (10 ^ a) (Z.of_N k)
    /\ (a + k = d)%N.
Proof.
  intros Hp. unfold pow.
  change (neg (ofZ 10)) with false. change (coef (ofZ 10)) with 10%N.
  change (exp (ofZ 10)) with 0. cbn [andb]. rewrite Z.mul_0_l.
  destruct (finalise_trailing_zeros cfg false d 1 0 ltac:(lia))
    as [a [k [E Hs]]].
  { change (digits 1) with 1%N. exact Hp. }
  rewrite N.mul_1_r in E. rewrite E. exists a, k.
  split; [f_equal; lia | exact Hs].
Qed.

Lemma finalise_neg (cfg : Config) (x : Decimal) :
  neg (finalise cfg x) = neg x.
Proof.
  unfold finalise.
  destruct (digits (coef x) <=? DecimalJs.precision cfg)%N; reflexivity.
Qed.

Lemma neg_mul_pow_Ten (cfg : Config) (x : Decimal) (d : N) :
  neg (mul cfg (pow cfg (ofZ 10) d) x) = neg x.
Proof.
  unfold mul, pow. rewrite !finalise_neg. reflexivity.
Qed.

Lemma mul_pow_Ten_exact (cfg : Config) (x : Decimal) (d : N) :
  (0 < coef x)%N -> fitsPrecision (DecimalJs.precision cfg) x ->
  (toQ (mul cfg (pow cfg (ofZ 10) d) x)
   == toQ x * inject_Z (10 ^ Z.of_N d))%Q.
Proof.
  intros Hc [t [c0 [Ec Hd]]].
  assert (Hc0 : (0 < c0)%N).
  { destruct (N.eq_dec c0 0) as [E|E]; [|lia].
    rewrite E, N.mul_0_r in Ec. lia. }
  pose proof (digits_pos c0) as Dk.
  destruct (pow_Ten cfg d ltac:(lia)) as [a [k [Ep Hs]]].
  rewrite Ep. unfold mul. cbn [neg coef exp xorb].
  rewrite Ec, N.mul_assoc, <- N.pow_add_r.
  destruct (finalise_trailing_zeros cfg (neg x) (a + t) c0
              (Z.of_N k + exp x) Hc0 Hd) as [a' [k' [Ef Hs']]].
  rewrite Ef.
  rewrite (N.mul_comm (10 ^ a') c0), toQ_rescale.
  assert (Ex : (toQ x == toQ (mkDecimal (neg x) c0 (exp x + Z.of_N t)))%Q).
  { rewrite <- toQ_rescale, (N.mul_comm c0), <- Ec. destruct x; reflexivity. }
  rewrite Ex.
  replace (Z.of_N k + exp x + Z.of_N k' + Z.of_N a')
    with (exp x + Z.of_N t + Z.of_N d) by lia.
  unfold toQ. cbn [neg coef exp].
  rewrite (Qpower_plus 10 (exp x + Z.of_N t) (Z.of_N d)) by exact ten_nonzero.
  rewrite (Qpower10_nonneg (Z.of_N d)) by lia. ring.
Qed.

Lemma toQ_sign (x : Decimal) :
  ((toQ x == 0)%Q <-> isZero x = true)
  /\ ((toQ x < 0)%Q <-> isZero x = false /\ neg x = true)
  /\ ((0 < toQ x)%Q <-> isZero x = false /\ neg x = false).
Proof.
  assert (Hp : (0 < 10 ^ exp x)%Q) by (apply Qpower_0_lt; reflexivity).
  unfold toQ, isZero.
  set (z := (if neg x then -1 else 1) * Z.of_N (coef x)).
  assert (Hz : (z = 0 <-> coef x = 0%N)
               /\ (z < 0 <-> coef x <> 0%N /\ neg x = true)
               /\ (0 < z <-> coef x <> 0%N /\ neg x = false)).
  { unfold z. destruct (neg x); repeat split; intros; try lia;
      try (destruct H; try discriminate; lia). }
  destruct Hz as [Hz0 [Hzn Hzp]].
  assert (Hq0 : (inject_Z z * 10 ^ exp x == 0)%Q <-> z = 0).
  { split.
    - intros H. apply Qmult_integral in H. destruct H as [H|H].
      + unfold Qeq in H. cbn in H. lia.
      + rewrite H in Hp. discriminate.
    - intros ->. ring. }
  assert (Hqn : (inject_Z z * 10 ^ exp x < 0)%Q <-> z < 0).
  { split.
    - intros H. destruct (Z_lt_le_dec z 0) as [L|L]; [exact L|]. exfalso.
      assert (0 <= inject_Z z * 10 ^ exp x)%Q.
      { apply Qmult_le_0_compat; [|apply Qlt_le_weak; exact Hp].
        change 0%Q with (inject_Z 0). rewrite <- Zle_Qle. exact L. }
      apply (Qlt_not_le _ _ H). assumption.
    - intros L.
      assert (H : (0 < inject_Z (- z) * 10 ^ exp x)%Q).
      { apply Qmult_lt_0_compat; [|exact Hp].
        change 0%Q with (inject_Z 0). rewrite <- Zlt_Qlt. lia. }
      rewrite inject_Z_opp in H.
      apply Qopp_lt_compat in H.
      setoid_replace (- (- inject_Z z * 10 ^ exp x))%Q
        with (inject_Z z * 10 ^ exp x)%Q in H by ring.
      exact H. }
  assert (Hqp : (0 < inject_Z z * 10 ^ exp x)%Q <-> 0 < z).
  { split.
    - intros H. destruct (Z_lt_le_dec 0 z) as [L|L]; [exact L|]. exfalso.
      destruct (Z.eq_dec z 0) as [E|E].
      + rewrite E in H. setoid_replace (inject_Z 0 * 10 ^ exp x)%Q with 0%Q in H by ring.
        discriminate.
      + assert (z < 0) by lia. apply Hqn in H0.
        apply (Qlt_irrefl 0). eapply Qlt_trans; eassumption.
    - intros L. apply Qmult_lt_0_compat; [|exact Hp].
      change 0%Q with (inject_Z 0). rewrite <- Zlt_Qlt. exact L. }
  rewrite Hq0, Hqn, Hqp, Hz0, Hzn, Hzp.
  destruct (N.eqb_spec (coef x) 0); repeat split; intros;
    try tauto; try discriminate; try (destruct H; congruence).
Qed.

Section Scaled.
Variable params : ScaleParams.
Hypothesis Hexp : 0 < exponent params.
Hypothesis Hbits : 0 <= bits params.
Hypothesis Hfit : 2 ^ bits params - 1 < 10 ^ exponent params.

Let Dec := mkConfig (Utils.precision params) (exponent params) (- exponent params).
Let MaxZ := 2 ^ bits params - 1.

Lemma makeToScaledBigUint_zero (x : Decimal) (d : N) :
  isZero x = true -> makeToScaledBigUint params x d = Ok 0.
Proof. intros H. unfold makeToScaledBigUint. rewrite H. reflexivity. Qed.

Lemma makeToScaledBigUint_negative (x : Decimal) (d : N) :
  isZero x = false -> neg x = true ->
  makeToScaledBigUint params x d = Err NumberIsNegative.
Proof.
  intros Hz Hn. unfold makeToScaledBigUint, isNeg. rewrite Hz, Hn. reflexivity.
Qed.

(** What the conversion does on every positive input: it decides on the
    integer part of the product as [mul] rounded it. *)
Lemma makeToScaledBigUint_positive (x : Decimal) (d : N) :
  isZero x = false -> neg x = false ->
  let p := mul Dec (pow Dec (ofZ 10) d) x in
  let r := round_down (toQ p) in
  makeToScaledBigUint params x d
  = if r =? 0 then Err (PrecisionLoss x)
    else if MaxZ <? r
    then Err (IntegerOutOfRange (truncated p) (ofZ MaxZ))
    else Ok r.
Proof.
  intros Hz Hn p r.
  assert (Hp : neg p = false).
  { unfold p. rewrite neg_mul_pow_Ten. exact Hn. }
  destruct (truncated_shape p) as [Ht He]. rewrite Hp in Ht.
  assert (Hr : r = unitsAt 0 (truncated p)).
  { unfold r. apply round_down_toQ. exact Hp. }
  assert (Hr0 : 0 <= r).
  { rewrite Hr, unitsAt0_nonneg_exp by assumption.
    apply Z.mul_nonneg_nonneg; [lia | apply Z.pow_nonneg; lia]. }
  assert (HM : Z.shiftl 1 (bits params) - 1 = MaxZ).
  { unfold MaxZ. rewrite Z.shiftl_mul_pow2 by exact Hbits. lia. }
  assert (HM0 : 0 <= MaxZ).
  { unfold MaxZ. pose proof (Z.pow_pos_nonneg 2 (bits params) ltac:(lia) Hbits).
    lia. }
  unfold makeToScaledBigUint, isNeg. rewrite Hz, Hn, HM.
  fold Dec. fold p.
  rewrite (isZero_units (truncated p)) by assumption.
  rewrite (greaterThan_units (truncated p) MaxZ) by assumption.
  rewrite <- Hr.
  destruct (Z.eqb_spec r 0) as [E0|E0]; [reflexivity|].
  destruct (Z.ltb_spec MaxZ r) as [Eb|Eb]; [reflexivity|].
  assert (Hb : toBigInt Dec (truncated p) = Some r).
  { rewrite Hr. apply toBigInt_units; cbn [toExpPos toExpNeg Dec];
      try assumption; try lia.
    all: rewrite <- Hr; unfold MaxZ in Eb; lia. }
  rewrite Hb. reflexivity.
Qed.

End Scaled.

Lemma round_down_comp (p q : Q) : (p == q)%Q -> round_down p = round_down q.
Proof.
  intros E. unfold round_down.
  assert (Hb : Qle_bool 0 p = Qle_bool 0 q).
  { destruct (Qle_bool 0 p) eqn:Ep, (Qle_bool 0 q) eqn:Eq; try reflexivity.
    - apply Qle_bool_iff in Ep. rewrite E in Ep. apply Qle_bool_iff in Ep.
      congruence.
    - apply Qle_bool_iff in Eq. rewrite <- E in Eq. apply Qle_bool_iff in Eq.
      congruence. }
  rewrite Hb. destruct (Qle_bool 0 q).
  - rewrite E. reflexivity.
  - unfold Qceiling. rewrite E. reflexivity.
Qed.

Lemma makeToScaledBigUint_spec (params : ScaleParams) :
  0 < exponent params -> 0 <= bits params ->
  2 ^ bits params - 1 < 10 ^ exponent params ->
  ScaledConversionSpec (makeToScaledBigUint params) (Utils.precision params)
    (bits params).
Proof.
  intros Hexp Hbits Hfit x d.
  destruct (toQ_sign x) as [S0 [Sn Sp]].
  pose proof (makeToScaledBigUint_positive params Hexp Hbits Hfit x d) as Hpos.
  cbv zeta in Hpos.
  set (Dec := mkConfig (Utils.precision params) (exponent params)
                (- exponent params)) in *.
  set (p := mul Dec (pow Dec (ofZ 10) d) x) in *.
  assert (HM0 : 0 <= 2 ^ bits params - 1).
  { pose proof (Z.pow_pos_nonneg 2 (bits params) ltac:(lia) Hbits). lia. }
  split; [|split; [|split; [|split]]].
  - intros H. apply makeToScaledBigUint_zero. apply S0. exact H.
  - intros H. apply Sn in H. destruct H.
    apply makeToScaledBigUint_negative; assumption.
  - intros H Hfp r. apply Sp in H. destruct H as [Hz Hn].
    assert (Hc : (0 < coef x)%N).
    { unfold isZero in Hz. apply N.eqb_neq in Hz. lia. }
    assert (Er : round_down (toQ p) = r).
    { unfold r. apply round_down_comp.
      apply (mul_pow_Ten_exact Dec x d Hc Hfp). }
    rewrite (Hpos Hz Hn), Er.
    repeat split.
    + intros E. rewrite E. reflexivity.
    + intros E. destruct (Z.eqb_spec r 0); [lia|].
      destruct (Z.ltb_spec (2 ^ bits params - 1) r); [|lia].
      eexists. reflexivity.
    + intros E. destruct (Z.eqb_spec r 0); [lia|].
      destruct (Z.ltb_spec (2 ^ bits params - 1) r); [lia|]. reflexivity.
  - rewrite S0. split.
    + intros H. destruct (isZero x) eqn:Hz; [reflexivity|]. exfalso.
      destruct (neg x) eqn:Hn.
      * rewrite (makeToScaledBigUint_negative params x d Hz Hn) in H.
        discriminate.
      * rewrite (Hpos eq_refl eq_refl) in H.
        destruct (Z.eqb_spec (round_down (toQ p)) 0); [discriminate|].
        destruct (2 ^ bits params - 1 <? round_down (toQ p)); [discriminate|].
        injection H as H. contradiction.
    + apply makeToScaledBigUint_zero.
  - intros v H. destruct (isZero x) eqn:Hz.
    + rewrite (makeToScaledBigUint_zero params x d Hz) in H.
      injection H as <-. lia.
    + destruct (neg x) eqn:Hn.
      * rewrite (makeToScaledBigUint_negative params x d Hz Hn) in H.
        discriminate.
      * rewrite (Hpos eq_refl eq_refl) in H.
        destruct (Z.eqb_spec (round_down (toQ p)) 0); [discriminate|].
        destruct (Z.ltb_spec (2 ^ bits params - 1) (round_down (toQ p)));
          [discriminate|].
        injection H as <-.
        assert (Hp : neg p = false)
          by (unfold p; rewrite neg_mul_pow_Ten; exact Hn).
        assert (0 <= round_down (toQ p)).
        { rewrite round_down_toQ by exact Hp.
          destruct (truncated_shape p) as [Ht He]. rewrite Hp in Ht.
          rewrite unitsAt0_nonneg_exp by assumption.
          apply Z.mul_nonneg_nonneg; [lia | apply Z.pow_nonneg; lia]. }
        lia.
Qed.

(** Where the scaling product is exact the conversion rounds down.
    [toScaledU64] (20 significant digits, width 64) and [toScaledU128]
    (40 significant digits, width 128) return 0 on a zero input and fail
    with the negative-value error on a negative one; on a positive input
    written with at most that many significant digits they fail with the
    precision-loss error when [round_down (x * 10^d)] is zero, with the
    out-of-range error when it exceeds [2^width - 1], and otherwise return
    exactly [round_down (x * 10^d)]; on every input a returned value lies
    in [[0, 2^width - 1]] and is zero exactly when the input is zero. *)
Lemma toScaled_fitting_precision :
  ScaledConversionSpec toScaledU64 20 64
  /\ ScaledConversionSpec toScaledU128 40 128.
Proof.
  split.
  - apply (makeToScaledBigUint_spec (mkScaleParams 20 28 64));
      cbn [exponent bits]; lia.
  - apply (makeToScaledBigUint_spec (mkScaleParams 40 56 128));
      cbn [exponent bits]; lia.
Qed.

(** C1.  The conversion does not round down where the claim says it
    does: [Ten.pow(decimals).mul(dec)] is rounded half-up to the working
    precision (20 significant digits for [toScaledU64]) before
    [truncated()] is applied.  [0.999999999999999999999] is nonzero and
    its [round_down] at [d = 0] is zero, yet the conversion returns 1
    instead of the precision-loss error; [123456789012345678.955] at
    [d = 2] has the [round_down] 12345678901234567895 and the conversion
    returns 12345678901234567896; [18446744073709551615.5] at [d = 0] has
    the [round_down] [2^64 - 1], which is in range, and the conversion
    fails with the out-of-range error. *)
Theorem toScaled_rounds_half_up_before_truncating :
  (let x := mkDecimal false 999999999999999999999 (-21) in
   ~ (toQ x == 0)%Q
   /\ round_down (toQ x * inject_Z (10 ^ Z.of_N 0)) = 0
   /\ toScaledU64 x 0 = Ok 1)
  /\ (let x := mkDecimal false 123456789012345678955 (-3) in
      round_down (toQ x * inject_Z (10 ^ Z.of_N 2)) = 12345678901234567895
      /\ toScaledU64 x 2 = Ok 12345678901234567896)
  /\ (let x := mkDecimal false 184467440737095516155 (-1) in
      round_down (toQ x * inject_Z (10 ^ Z.of_N 0)) = 2 ^ 64 - 1
      /\ toScaledU64 x 0
         = Err (IntegerOutOfRange (ofZ (2 ^ 64)) (ofZ (2 ^ 64 - 1)))).
Proof.
  split; [|split].
  - intros x. split; [intros H; vm_compute in H; discriminate H|].
    split; vm_compute; reflexivity.
  - intros x. split; vm_compute; reflexivity.
  - intros x. split; vm_compute; reflexivity.
Qed.

(* ===================================================================== *)
(** * Further properties of the code around the claims *)

(** ** The scaled conversion on inputs of any precision *)

Lemma floorOf_nonneg_exp (s : bool) (c : N) (e : Z) :
  0 <= e -> floorOf (mkDecimal false c e) = Z.of_N c * 10 ^ e.
Proof.
  intros He. unfold floorOf, truncated. cbn [exp].
  destruct (Z.leb_spec 0 e); [|lia].
  apply unitsAt0_nonneg_exp; [reflexivity | exact He].
Qed.

Lemma floorOf_neg_exp (c : N) (e : Z) :
  e < 0 -> floorOf (mkDecimal false c e) = Z.of_N c / 10 ^ (- e).
Proof.
  intros He. unfold floorOf, truncated. cbn [exp neg coef].
  destruct (Z.leb_spec 0 e); [lia|].
  unfold unitsAt. cbn [neg coef exp].
  rewrite N2Z.inj_div, N2Z.inj_pow, Z2N.id by lia.
  change (Z.of_N 10) with 10. change (10 ^ (0 - 0)) with 1. lia.
Qed.

Lemma div_succ_le (q m : Z) : 0 < m -> (q + 1) / m <= q / m + 1.
Proof.
  intros Hm.
  replace (q / m + 1) with ((q + 1 * m) / m)
    by (rewrite Z.div_add by lia; reflexivity).
  apply Z.div_le_mono; lia.
Qed.

Lemma finalise_floor_bound (cfg : Config) (c : N) (e : Z) :
  (1 <= DecimalJs.precision cfg)%N ->
  let y := mkDecimal false c e in
  let p := finalise cfg y in
  (floorOf y <= floorOf p <= floorOf y + 1)
  \/ (10 ^ Z.of_N (DecimalJs.precision cfg) <= floorOf y
      /\ 10 ^ Z.of_N (DecimalJs.precision cfg) <= floorOf p).
Proof.
  intros HP y p. unfold p, y, finalise. cbn [neg coef exp].
  set (P := DecimalJs.precision cfg) in *.
  destruct (N.leb_spec (digits c) P) as [Hd|Hd]; [left; lia|].
  assert (Hc : (0 < c)%N).
  { destruct (N.eq_dec c 0) as [E|E]; [|lia].
    rewrite E in Hd. change (digits 0) with 1%N in Hd. lia. }
  destruct (digits_spec c Hc) as [Dlo Dhi].
  set (k := (digits c - P)%N) in *.
  assert (Hk : (1 <= k)%N) by (unfold k; lia).
  set (q := (c / 10 ^ k)%N).
  set (r := (c mod 10 ^ k)%N).
  pose proof (N.pow_nonzero 10 k ltac:(lia)) as Hnz.
  pose proof (N.div_mod c (10 ^ k) Hnz) as Hdm. fold q r in Hdm.
  pose proof (N.mod_lt c (10 ^ k) Hnz) as Hr. fold r in Hr.
  (* the bounds of the kept digits, in Z *)
  assert (Tk : 0 < 10 ^ Z.of_N k) by (apply Z.pow_pos_nonneg; lia).
  assert (Ec : Z.of_N c = 10 ^ Z.of_N k * Z.of_N q + Z.of_N r).
  { rewrite Hdm at 1. rewrite N2Z.inj_add, N2Z.inj_mul, N2Z.inj_pow. reflexivity. }
  assert (Er : 0 <= Z.of_N r < 10 ^ Z.of_N k).
  { split; [lia|]. apply N2Z.inj_lt in Hr. rewrite N2Z.inj_pow in Hr. exact Hr. }
  assert (Hq : 10 ^ (Z.of_N P - 1) <= Z.of_N q).
  { assert (H1 : (10 ^ (P - 1) * 10 ^ k <= c)%N).
    { rewrite <- N.pow_add_r. replace (P - 1 + k)%N with (digits c - 1)%N
        by (unfold k; lia). exact Dlo. }
    assert (H2 : (10 ^ (P - 1) <= q)%N).
    { unfold q. apply N.div_le_lower_bound; [exact Hnz | lia]. }
    apply N2Z.inj_le in H2. rewrite N2Z.inj_pow, N2Z.inj_sub in H2 by lia.
    exact H2. }
  set (c' := if (10 ^ k <=? 2 * r)%N then N.succ q else q).
  assert (Hc' : Z.of_N c' = Z.of_N q \/ Z.of_N c' = Z.of_N q + 1).
  { unfold c'. destruct (10 ^ k <=? 2 * r)%N; lia. }
  assert (T10 : 10 ^ Z.of_N P = 10 * 10 ^ (Z.of_N P - 1)).
  { rewrite <- Z.pow_succ_r by lia. f_equal. lia. }
  assert (Tp : 0 < 10 ^ (Z.of_N P - 1)) by (apply Z.pow_pos_nonneg; lia).
  destruct (Z.lt_ge_cases (e + Z.of_N k) 0) as [Hneg|Hnn].
  - (* the rounded value still has a fractional part *)
    left. rewrite !floorOf_neg_exp by lia.
    set (m := 10 ^ (- (e + Z.of_N k))).
    assert (Tm : 0 < m) by (apply Z.pow_pos_nonneg; lia).
    assert (Ey : Z.of_N c / 10 ^ (- e) = Z.of_N q / m).
    { replace (- e) with (Z.of_N k + - (e + Z.of_N k)) by lia.
      rewrite Z.pow_add_r by lia. fold m.
      rewrite <- Z.div_div by lia. f_equal.
      rewrite Ec, Z.mul_comm, Z.div_add_l by lia.
      rewrite (Z.div_small (Z.of_N r)) by lia. lia. }
    rewrite Ey.
    destruct Hc' as [-> | ->]; [lia|].
    split; [apply Z.div_le_mono; lia | apply div_succ_le; exact Tm].
  - destruct (Z.eq_dec (e + Z.of_N k) 0) as [Hz|Hz].
    + (* the rounded value is the rounded coefficient *)
      left. rewrite (floorOf_nonneg_exp false c' (e + Z.of_N k)) by lia.
      rewrite floorOf_neg_exp by lia.
      rewrite Hz, Z.pow_0_r, Z.mul_1_r.
      replace (- e) with (Z.of_N k) by lia.
      rewrite Ec, Z.mul_comm, Z.div_add_l by lia.
      rewrite (Z.div_small (Z.of_N r)) by lia. lia.
    + (* digits in front of the decimal point were dropped *)
      right.
      rewrite (floorOf_nonneg_exp false c' (e + Z.of_N k)) by lia.
      assert (Tj : 10 <= 10 ^ (e + Z.of_N k)).
      { change 10 with (10 ^ 1) at 1. apply Z.pow_le_mono_r; lia. }
      split.
      * destruct (Z.lt_ge_cases e 0) as [He|He].
        -- rewrite floorOf_neg_exp by lia.
           assert (Es : 10 ^ Z.of_N k = 10 ^ (- e) * 10 ^ (e + Z.of_N k)).
           { rewrite <- Z.pow_add_r by lia. f_equal. lia. }
           assert (Te : 0 < 10 ^ (- e)) by (apply Z.pow_pos_nonneg; lia).
           apply Z.div_le_lower_bound; [exact Te|].
           rewrite T10. nia.
        -- rewrite (floorOf_nonneg_exp false c e) by lia.
           assert (Te : 1 <= 10 ^ e) by (pose proof (Z.pow_pos_nonneg 10 e ltac:(lia) He); lia).
           assert (Tk10 : 10 <= 10 ^ Z.of_N k).
           { change 10 with (10 ^ 1) at 1. apply Z.pow_le_mono_r; lia. }
           rewrite T10. nia.
      * rewrite T10. nia.
Qed.

Lemma toQ_product (cfg : Config) (x : Decimal) (d : N) :
  (1 <= DecimalJs.precision cfg)%N -> neg x = false ->
  exists c e,
    mul cfg (pow cfg (ofZ 10) d) x = finalise cfg (mkDecimal false c e)
    /\ floorOf (mkDecimal false c e)
       = round_down (toQ x * inject_Z (10 ^ Z.of_N d)).
Proof.
  intros HP Hn.
  destruct (pow_Ten cfg d HP) as [a [k [Ep Hs]]].
  exists (10 ^ a * coef x)%N, (Z.of_N k + exp x).
  split.
  - unfold mul. rewrite Ep. cbn [neg coef exp]. rewrite Hn. reflexivity.
  - unfold floorOf. rewrite <- round_down_toQ by reflexivity.
    apply round_down_comp.
    rewrite (N.mul_comm (10 ^ a) (coef x)), toQ_rescale.
    unfold toQ. cbn [neg coef exp]. rewrite Hn.
    replace (Z.of_N k + exp x + Z.of_N a) with (exp x + Z.of_N d) by lia.
    rewrite Qpower_plus by exact ten_nonzero.
    rewrite (Qpower10_nonneg (Z.of_N d)) by lia. ring.
Qed.

Lemma makeToScaledBigUint_rounding (params : ScaleParams) :
  0 < exponent params -> 0 <= bits params ->
  2 ^ bits params - 1 < 10 ^ exponent params ->
  (1 <= Utils.precision params)%N ->
  2 ^ bits params - 1 < 10 ^ Z.of_N (Utils.precision params) ->
  ScaledRoundingBound (makeToScaledBigUint params) (bits params).
Proof.
  intros Hexp Hbits Hfit HP HPfit x d Hx f.
  destruct (toQ_sign x) as [_ [_ Sp]]. apply Sp in Hx. destruct Hx as [Hz Hn].
  pose proof (makeToScaledBigUint_positive params Hexp Hbits Hfit x d Hz Hn)
    as Hpos. cbv zeta in Hpos.
  set (Dec := mkConfig (Utils.precision params) (exponent params)
                (- exponent params)) in *.
  destruct (toQ_product Dec x d HP Hn) as [c [e [Em Ef]]]. fold f in Ef.
  pose proof (finalise_floor_bound Dec c e HP) as Hb. cbv zeta in Hb.
  rewrite <- Em in Hb. rewrite Ef in Hb.
  set (p := mul Dec (pow Dec (ofZ 10) d) x) in *.
  assert (Hp : neg p = false)
    by (unfold p; rewrite neg_mul_pow_Ten; exact Hn).
  assert (Er : round_down (toQ p) = floorOf p)
    by (apply round_down_toQ; exact Hp).
  rewrite Er in Hpos. cbn [DecimalJs.precision Dec] in Hb.
  set (r := floorOf p) in *.
  set (M := 2 ^ bits params - 1) in *.
  assert (Hf0 : 0 <= f).
  { unfold f, round_down.
    destruct (Qle_bool 0 (toQ x * inject_Z (10 ^ Z.of_N d))) eqn:Eq.
    - apply Qle_bool_iff in Eq. apply Qfloor_resp_le in Eq.
      exact Eq.
    - exfalso. assert (H0 : (0 <= toQ x * inject_Z (10 ^ Z.of_N d))%Q).
      { apply Qmult_le_0_compat; [apply toQ_nonneg; exact Hn|].
        change 0%Q with (inject_Z 0). rewrite <- Zle_Qle.
        apply Z.pow_nonneg. lia. }
      apply Qle_bool_iff in H0. congruence. }
  rewrite Hpos.
  destruct (Z.eqb_spec r 0) as [E0|E0];
    [|destruct (Z.ltb_spec M r) as [Eb|Eb]].
  - (* precision loss *)
    split; [|split; [|split; [|split]]].
    + intros v H. discriminate H.
    + intros _. lia.
    + intros scaled Max H. discriminate H.
    + intros H. exfalso. lia.
    + right. left. reflexivity.
  - (* out of range *)
    split; [|split; [|split; [|split]]].
    + intros v H. discriminate H.
    + intros H. discriminate H.
    + intros scaled Max _. lia.
    + intros _. eexists. reflexivity.
    + right. right. eexists. reflexivity.
  - split; [|split; [|split; [|split]]].
    + intros v H. injection H as <-. lia.
    + intros H. discriminate H.
    + intros scaled Max H. discriminate H.
    + intros H. exfalso. lia.
    + left. eexists. reflexivity.
Qed.

(** X1.  On every positive input, whatever its number of digits, the
    value [toScaledU64] or [toScaledU128] returns is the exact integer
    part [round_down (x * 10^d)] or that plus one; a precision-loss error
    means the exact integer part is zero, an out-of-range error means it
    is at least [2^width - 1], an exact integer part above [2^width - 1]
    always gives the out-of-range error, and no other error occurs. *)
Theorem toScaled_rounding_bound :
  ScaledRoundingBound toScaledU64 64 /\ ScaledRoundingBound toScaledU128 128.
Proof.
  split.
  - apply (makeToScaledBigUint_rounding (mkScaleParams 20 28 64));
      cbn [exponent bits Utils.precision]; lia.
  - apply (makeToScaledBigUint_rounding (mkScaleParams 40 56 128));
      cbn [exponent bits Utils.precision]; lia.
Qed.

Lemma toScaled_rounding_bound_witness :
  let x := mkDecimal false 999999999999999999999 (-21) in
  round_down (toQ x * inject_Z (10 ^ Z.of_N 0)) <= 1
  <= round_down (toQ x * inject_Z (10 ^ Z.of_N 0)) + 1.
Proof.
  intros x.
  destruct (proj1 toScaled_rounding_bound x 0%N eq_refl) as [H _].
  apply H. vm_compute. reflexivity.
Defined.


Lemma round_down_integer_product (x : Decimal) (d : N) :
  neg x = false -> 0 <= exp x + Z.of_N d ->
  round_down (toQ x * inject_Z (10 ^ Z.of_N d))
  = Z.of_N (coef x) * 10 ^ (exp x + Z.of_N d).
Proof.
  intros Hn He.
  rewrite <- (floorOf_nonneg_exp false (coef x) (exp x + Z.of_N d)) by exact He.
  unfold floorOf. rewrite <- round_down_toQ by reflexivity.
  apply round_down_comp.
  unfold toQ. cbn [neg coef exp]. rewrite Hn.
  rewrite Qpower_plus by exact ten_nonzero.
  rewrite (Qpower10_nonneg (Z.of_N d)) by lia. ring.
Qed.

Lemma digits_le_of_lt_pow (c P : N) :
  (1 <= P)%N -> (c < 10 ^ P)%N -> (digits c <= P)%N.
Proof.
  intros HP Hc.
  destruct (N.eq_dec c 0) as [E|E].
  - rewrite E. change (digits 0) with 1%N. exact HP.
  - destruct (digits_spec c ltac:(lia)) as [Dlo _].
    pose proof (digits_pos c) as Dk.
    destruct (N.le_gt_cases (digits c) P) as [H|H]; [exact H|].
    exfalso.
    assert (10 ^ P <= 10 ^ (digits c - 1))%N
      by (apply N.pow_le_mono_r; lia).
    lia.
Qed.

Lemma makeToScaledBigUint_exactly (params : ScaleParams) :
  0 < exponent params -> 0 <= bits params ->
  2 ^ bits params - 1 < 10 ^ exponent params ->
  (1 <= Utils.precision params)%N ->
  2 ^ bits params - 1 < 10 ^ Z.of_N (Utils.precision params) ->
  ScaledExactly (makeToScaledBigUint params) (bits params).
Proof.
  intros Hexp Hbits Hfit HP HPfit x d Hn He n.
  pose proof (Z.pow_pos_nonneg 10 (exp x + Z.of_N d) ltac:(lia) He) as Tp.
  pose proof (round_down_integer_product x d Hn He) as Ef. fold n in Ef.
  destruct (toQ_sign x) as [_ [_ Sp]].
  split; [|split].
  - intros E0. apply makeToScaledBigUint_zero. unfold isZero.
    apply N.eqb_eq. unfold n in E0. nia.
  - intros [Hlo Hhi].
    assert (Hc : coef x <> 0%N) by (intros E; unfold n in Hlo; rewrite E in Hlo; lia).
    assert (Hx : (0 < toQ x)%Q).
    { apply Sp. split; [apply N.eqb_neq; exact Hc | exact Hn]. }
    assert (Hfp : fitsPrecision (Utils.precision params) x).
    { exists 0%N, (coef x). split; [rewrite N.pow_0_r; lia|].
      apply digits_le_of_lt_pow; [exact HP|].
      apply N2Z.inj_lt. rewrite N2Z.inj_pow. change (Z.of_N 10) with 10.
      unfold n in Hhi. nia. }
    destruct (makeToScaledBigUint_spec params Hexp Hbits Hfit x d)
      as [_ [_ [H3 _]]].
    destruct (H3 Hx Hfp) as [_ [_ Hok]]. rewrite Ef in Hok.
    apply Hok. lia.
  - intros Hbig.
    assert (Hc : coef x <> 0%N) by (intros E; unfold n in Hbig; rewrite E in Hbig;
      pose proof (Z.pow_pos_nonneg 2 (bits params) ltac:(lia) Hbits); lia).
    assert (Hx : (0 < toQ x)%Q).
    { apply Sp. split; [apply N.eqb_neq; exact Hc | exact Hn]. }
    destruct (makeToScaledBigUint_rounding params Hexp Hbits Hfit HP HPfit x d Hx)
      as [_ [_ [_ [H4 _]]]].
    rewrite Ef in H4. apply H4. exact Hbig.
Qed.

(** X2.  A non-negative amount with at most [d] decimal places is
    converted without rounding: with [n = x * 10^d], the conversion
    returns 0 when [n = 0], exactly [n] when [0 < n <= 2^width - 1], and
    the out-of-range error when [n] is larger. *)
Theorem toScaled_exact_up_to_decimals :
  ScaledExactly toScaledU64 64 /\ ScaledExactly toScaledU128 128.
Proof.
  split.
  - apply (makeToScaledBigUint_exactly (mkScaleParams 20 28 64));
      cbn [exponent bits Utils.precision]; lia.
  - apply (makeToScaledBigUint_exactly (mkScaleParams 40 56 128));
      cbn [exponent bits Utils.precision]; lia.
Qed.

Lemma toScaled_exact_up_to_decimals_witness :
  toScaledU64 (mkDecimal false 12345 (-2)) 3 = Ok 123450
  /\ toScaledU128 (mkDecimal false 12345 (-2)) 3 = Ok 123450.
Proof.
  split.
  - destruct (proj1 toScaled_exact_up_to_decimals
                (mkDecimal false 12345 (-2)) 3%N eq_refl)
      as [_ [H _]]; [cbn; lia|].
    apply H. cbn. lia.
  - destruct (proj2 toScaled_exact_up_to_decimals
                (mkDecimal false 12345 (-2)) 3%N eq_refl)
      as [_ [H _]]; [cbn; lia|].
    apply H. cbn. lia.
Defined.

(** ** The Withdraw and PlaceOrder builders *)

Lemma toScaledU64_contract : ScaledConversionSpec toScaledU64 20 64.
Proof.
  apply (makeToScaledBigUint_spec (mkScaleParams 20 28 64));
    cbn [exponent bits]; lia.
Qed.

Lemma toScaledU128_contract : ScaledConversionSpec toScaledU128 40 128.
Proof.
  apply (makeToScaledBigUint_spec (mkScaleParams 40 56 128));
    cbn [exponent bits]; lia.
Qed.

(** X3.  The Withdraw builder fails with "Withdraw amount must be
    positive" exactly when the amount is zero, and with the
    negative-value error on a negative amount; an action it builds
    carries a scaled amount in [[1, 2^64 - 1]]; and a builder error is the
    result of [withdrawImpl] whatever the coders, signer and transport. *)
Theorem withdraw_amount_validation (ts nonce : Z) (p : WithdrawParams.t) :
  let amount := WithdrawParams.amount p in
  (withdrawAction ts nonce p = Err WithdrawAmountNotPositive
   <-> (toQ amount == 0)%Q)
  /\ ((toQ amount < 0)%Q -> withdrawAction ts nonce p = Err NumberIsNegative)
  /\ (forall action,
        withdrawAction ts nonce p = Ok action ->
        exists v,
          toScaledU64 amount (WithdrawParams.sizeDecimals p) = Ok v
          /\ 0 < v <= 2 ^ 64 - 1
          /\ action
             = proto.mkAction ts nonce
                 (Some (proto.withdraw
                          (proto.Withdraw.mk (WithdrawParams.sessionId p)
                             (WithdrawParams.tokenId p) v))))
  /\ (forall actionCoder receiptCoder sendFn signFn e,
        withdrawAction ts nonce p = Err e ->
        withdrawImpl actionCoder receiptCoder sendFn signFn ts nonce p = Err e).
Proof.
  intros amount.
  destruct (toScaledU64_contract amount (WithdrawParams.sizeDecimals p))
    as [Hz [Hneg [_ [Hiff Hrange]]]].
  unfold withdrawAction. fold amount.
  split; [|split; [|split]].
  - split.
    + destruct (toScaledU64 amount (WithdrawParams.sizeDecimals p))
        as [v|e] eqn:Ev; cbn [bind].
      * destruct (Z.leb_spec v 0) as [Hv|Hv]; intros H. 2:{ discriminate H. }
        pose proof (Hrange v eq_refl) as Hr.
        assert (v = 0) by lia. subst v. apply Hiff. reflexivity.
      * intros H. injection H as ->.
        exfalso.
        destruct (toQ_sign amount) as [S0 [Sn Sp]].
        destruct (isZero amount) eqn:Ez.
        -- discriminate (Hz (proj2 S0 eq_refl)).
        -- destruct (neg amount) eqn:En.
           ++ discriminate (Hneg (proj2 Sn (conj eq_refl eq_refl))).
           ++ unfold toScaledU64 in Ev.
              rewrite (makeToScaledBigUint_positive (mkScaleParams 20 28 64))
                in Ev; cbn [exponent bits]; try lia; try assumption.
              revert Ev. destruct (_ =? 0); [discriminate|].
              destruct (_ <? _); discriminate.
    + intros H. rewrite (Hz H). reflexivity.
  - intros H. rewrite (Hneg H). reflexivity.
  - intros action.
    destruct (toScaledU64 amount (WithdrawParams.sizeDecimals p))
      as [v|e] eqn:Ev; cbn [bind]; [|discriminate].
    destruct (Z.leb_spec v 0) as [Hv|Hv]; intros H; [discriminate H|].
    injection H as <-. exists v.
    pose proof (Hrange v eq_refl). split; [reflexivity|]. split; [lia|].
    reflexivity.
  - intros actionCoder receiptCoder sendFn signFn e H.
    unfold withdrawImpl, withdrawAction. fold amount. rewrite H. reflexivity.
Qed.

Lemma withdraw_amount_validation_witness :
  withdrawAction 0 0 (WithdrawParams.mk 6 5 1 (ofZ 0))
  = Err WithdrawAmountNotPositive.
Proof.
  apply (proj2 (proj1 (withdraw_amount_validation 0 0
                         (WithdrawParams.mk 6 5 1 (ofZ 0))))).
  reflexivity.
Defined.


(** X4.  For a [sessionId] and a [clientOrderId] that [BigInt] accepts,
    the PlaceOrder builder fails with the error of the first failing
    scaled conversion, in the order price, size, quoteSize, and after
    them with "Invalid fill mode", which [fillModeToProtoFillMode] throws
    exactly on the numbers that are none of the four members of
    [FillMode]; the split of the quote size never fails.  Otherwise the
    action carries the three scaled values, the quote size as two 64-bit
    words that recompose it, the mapped fill mode, and the caller's
    identifiers unchanged; an omitted amount scales to zero. *)
Theorem placeOrder_builder_outcome (ts nonce : Z) (p : PlaceOrderParams.t) :
  (forall d, toScaledU64 (orZero None) d = Ok 0
             /\ toScaledU128 (orZero None) d = Ok 0)
  /\ (forall x,
        fillModeToProtoFillMode x = Err InvalidFillMode
        <-> ~ In x [Types.Limit; Types.PostOnly; Types.ImmediateOrCancel;
                    Types.FillOrKill])
  /\ match toScaledU64 (orZero (PlaceOrderParams.price p))
             (PlaceOrderParams.priceDecimals p),
           toScaledU64 (orZero (PlaceOrderParams.size p))
             (PlaceOrderParams.sizeDecimals p),
           toScaledU128 (orZero (PlaceOrderParams.quoteSize p))
             (PlaceOrderParams.priceDecimals p
              + PlaceOrderParams.sizeDecimals p)%N,
           fillModeToProtoFillMode (PlaceOrderParams.fillMode p) with
     | Err e, _, _, _ => placeOrderAction ts nonce p = Err e
     | Ok _, Err e, _, _ => placeOrderAction ts nonce p = Err e
     | Ok _, Ok _, Err e, _ => placeOrderAction ts nonce p = Err e
     | Ok _, Ok _, Ok _, Err e =>
         placeOrderAction ts nonce p = Err e /\ e = InvalidFillMode
     | Ok price, Ok size, Ok quoteSize, Ok fillMode =>
         exists po,
           placeOrderAction ts nonce p
           = Ok (proto.mkAction ts nonce (Some (proto.placeOrder po)))
           /\ proto.PlaceOrder.price po = price
           /\ proto.PlaceOrder.size po = size
           /\ (exists lo hi,
                 proto.PlaceOrder.quoteSize po = Some (proto.mkU128 lo hi)
                 /\ 0 <= lo < 2 ^ 64 /\ 0 <= hi < 2 ^ 64
                 /\ lo + hi * 2 ^ 64 = quoteSize)
           /\ proto.PlaceOrder.fillMode po = fillMode
           /\ proto.PlaceOrder.sessionId po = PlaceOrderParams.sessionId p
           /\ proto.PlaceOrder.marketId po = PlaceOrderParams.marketId p
           /\ proto.PlaceOrder.senderAccountId po = PlaceOrderParams.senderId p
           /\ proto.PlaceOrder.delegatorAccountId po
              = PlaceOrderParams.liquidateeId p
           /\ proto.PlaceOrder.clientOrderId po
              = PlaceOrderParams.clientOrderId p
           /\ proto.PlaceOrder.isReduceOnly po
              = PlaceOrderParams.isReduceOnly p
     end.
Proof.
  split; [intros d; split; reflexivity|].
  split.
  { intros x. unfold fillModeToProtoFillMode, Types.Limit, Types.PostOnly,
      Types.ImmediateOrCancel, Types.FillOrKill. cbn [In].
    destruct (Z.eqb_spec x 0); [split; [discriminate | lia]|].
    destruct (Z.eqb_spec x 1); [split; [discriminate | lia]|].
    destruct (Z.eqb_spec x 2); [split; [discriminate | lia]|].
    destruct (Z.eqb_spec x 3); [split; [discriminate | lia]|].
    split; [lia | reflexivity]. }
  unfold placeOrderAction.
  destruct (toScaledU64 (orZero (PlaceOrderParams.price p)) _)
    as [price|e]; cbn [bind]; [|reflexivity].
  destruct (toScaledU64 (orZero (PlaceOrderParams.size p)) _)
    as [size|e]; cbn [bind]; [|reflexivity].
  destruct (toScaledU128 (orZero (PlaceOrderParams.quoteSize p)) _)
    as [quoteSize|e] eqn:Eq; cbn [bind]; [|reflexivity].
  destruct (fillModeToProtoFillMode (PlaceOrderParams.fillMode p))
    as [fillMode|e] eqn:Ef; cbn [bind].
  2:{ split; [reflexivity|]. unfold fillModeToProtoFillMode in Ef.
      repeat match type of Ef with
             | (if ?c then _ else _) = _ => destruct c; [discriminate Ef|]
             end.
      injection Ef as <-. reflexivity. }
  assert (Hr : 0 <= quoteSize <= 2 ^ 128 - 1).
  { destruct (toScaledU128_contract (orZero (PlaceOrderParams.quoteSize p))
                (PlaceOrderParams.priceDecimals p
                 + PlaceOrderParams.sizeDecimals p)%N) as [_ [_ [_ [_ H]]]].
    apply H. exact Eq. }
  rewrite (bigIntToProtoU128_in_range quoteSize Hr).
  assert (Hhi : 0 <= quoteSize / 2 ^ 64 < 2 ^ 64).
  { split; [apply Z.div_pos; lia | apply Z.div_lt_upper_bound; lia]. }
  pose proof (Z.mod_pos_bound quoteSize (2 ^ 64) ltac:(lia)) as Hlo.
  pose proof (Z.div_mod quoteSize (2 ^ 64) ltac:(lia)) as Hdm.
  eexists; (split; [reflexivity|]); cbn;
    (split; [reflexivity|]); (split; [reflexivity|]);
    (split; [exists (quoteSize mod 2 ^ 64), (quoteSize / 2 ^ 64);
             split; [reflexivity|]; split; [lia|]; split; lia|]);
    repeat split; destruct (PlaceOrderParams.clientOrderId p); reflexivity.
Qed.

(** ** Frames: size and truncation *)

(** The bytes of the length prefix, by size of the payload. *)
Lemma varint32write_small (n : Z) :
  0 <= n <= 102400 ->
  Wire.varint32write 4 n
  = if n <? 128 then [byteOfZ n]
    else if n <? 16384
    then [byteOfZ (Z.lor (Z.land n 127) 128); byteOfZ (n / 128)]
    else [byteOfZ (Z.lor (Z.land n 127) 128);
          byteOfZ (Z.lor (Z.land (n / 128) 127) 128);
          byteOfZ (n / 128 / 128)].
Proof.
  intros Hn. unfold Wire.varint32write.
  rewrite !Z.shiftr_div_pow2 by lia. change (2 ^ 7) with 128.
  pose proof (Z.div_mod n 128 ltac:(lia)) as E0.
  pose proof (Z.mod_pos_bound n 128 ltac:(lia)) as B0.
  pose proof (Z.div_mod (n / 128) 128 ltac:(lia)) as E1.
  pose proof (Z.mod_pos_bound (n / 128) 128 ltac:(lia)) as B1.
  destruct (Z.ltb_spec 127 n), (Z.ltb_spec n 128); try lia; [|reflexivity].
  destruct (Z.ltb_spec 127 (n / 128)), (Z.ltb_spec n 16384); try lia;
    [|reflexivity].
  destruct (Z.ltb_spec 127 (n / 128 / 128)); [lia | reflexivity].
Qed.

(** X5.  A frame is its payload behind a prefix of one byte below 128
    bytes of payload, two bytes below 16384 and three bytes above, so a
    frame is never longer than [100 * 1024 + 3] bytes. *)
Theorem frame_length (T : Type) (coder : proto.MessageFns T) (message : T)
  (payload frame : bytes) :
  proto.encode message = Ok payload ->
  encodeLengthDelimited coder message = Ok frame ->
  byteLength frame
  = byteLength payload
    + (if byteLength payload <? 128 then 1
       else if byteLength payload <? 16384 then 2 else 3)
  /\ byteLength frame <= 100 * 1024 + 3.
Proof.
  intros He Hf.
  rewrite (encodeLengthDelimited_payload coder message payload He) in Hf.
  change MAX_PAYLOAD_SIZE with 102400 in Hf.
  revert Hf. destruct (Z.ltb_spec 102400 (byteLength payload)) as [H|H];
    intros Hf; [discriminate Hf|].
  assert (Hfr : frame = Wire.varint32write 4 (byteLength payload) ++ payload)
    by congruence.
  pose proof (byteLength_nonneg payload) as H0.
  rewrite Hfr, byteLength_app, varint32write_small by lia.
  destruct (byteLength payload <? 128);
    [|destruct (byteLength payload <? 16384)];
    unfold byteLength in *; cbn [List.length]; lia.
Qed.

Lemma frame_length_witness :
  byteLength [x01; x00]
  = byteLength [x00]
    + (if byteLength [x00] <? 128 then 1
       else if byteLength [x00] <? 16384 then 2 else 3)
  /\ byteLength [x01; x00] <= 100 * 1024 + 3.
Proof.
  apply (frame_length proto.Receipt TestDoubles.receiptCoder
           (proto.mkReceipt None) [x00] [x01; x00]).
  - reflexivity.
  - reflexivity.
Defined.


(** A buffer that ends inside the length prefix. *)
Lemma readUint32_cut_prefix (n : Z) (k : nat) :
  0 <= n <= 102400 ->
  (k < List.length (Wire.varint32write 4 n))%nat ->
  Wire.readUint32 (firstn k (Wire.varint32write 4 n)) 0 = Err PrematureEOF.
Proof.
  intros Hn. rewrite varint32write_small by exact Hn.
  destruct (n <? 128); [|destruct (n <? 16384)]; cbn [List.length]; intros Hk.
  - assert (k = 0%nat) by lia. subst k. reflexivity.
  - destruct k as [|[|k]]; [reflexivity | | lia].
    cbn [firstn]. unfold Wire.readUint32.
    cbn [Wire.bufAt nth_error Nat.add].
    rewrite cont_byte_flag. reflexivity.
  - destruct k as [|[|[|k]]]; [reflexivity | | | lia].
    + cbn [firstn]. unfold Wire.readUint32.
      cbn [Wire.bufAt nth_error Nat.add].
      rewrite cont_byte_flag. reflexivity.
    + cbn [firstn]. unfold Wire.readUint32.
      cbn [Wire.bufAt nth_error Nat.add].
      rewrite !cont_byte_flag. reflexivity.
Qed.

(** X6.  No proper prefix of a frame is decoded: cut inside the length
    prefix (the empty buffer included) the decoder fails with the
    reader's premature end of input, cut inside the payload it fails with
    the truncated error, the remaining bytes being fewer than declared;
    the schema decoder is not reached. *)
Theorem truncated_frame_rejected (T : Type) (coder : proto.MessageFns T)
  (message : T) (frame : bytes) (k : nat) :
  encodeLengthDelimited coder message = Ok frame ->
  (k < List.length frame)%nat ->
  decodeLengthDelimited coder (firstn k frame) = Err PrematureEOF
  \/ exists size remaining,
       decodeLengthDelimited coder (firstn k frame)
       = Err (BufferTooShort size remaining)
       /\ remaining < size.
Proof.
  intros Hf Hk.
  destruct (proto.encode message) as [payload|e] eqn:He;
    [|unfold encodeLengthDelimited in Hf; rewrite He in Hf; discriminate Hf].
  rewrite (encodeLengthDelimited_payload coder message payload He) in Hf.
  change MAX_PAYLOAD_SIZE with 102400 in Hf.
  revert Hf. destruct (Z.ltb_spec 102400 (byteLength payload)) as [H|H];
    intros Hf; [discriminate Hf|].
  assert (Hfr : frame = Wire.varint32write 4 (byteLength payload) ++ payload)
    by congruence.
  pose proof (byteLength_nonneg payload) as H0.
  set (V := Wire.varint32write 4 (byteLength payload)) in *.
  subst frame. rewrite length_app in Hk. rewrite firstn_app.
  destruct (Nat.lt_ge_cases k (List.length V)) as [Hin|Hout].
  - (* the cut falls inside the length prefix *)
    left.
    replace (k - List.length V)%nat with 0%nat by lia.
    cbn [firstn]. rewrite app_nil_r.
    unfold decodeLengthDelimited.
    unfold V. rewrite readUint32_cut_prefix by (fold V; lia). reflexivity.
  - (* the prefix is whole, the payload is short *)
    right. rewrite firstn_all2 by exact Hout.
    rewrite (decodeLengthDelimited_prefix coder _ (byteLength payload)
               (List.length V))
      by (unfold V; apply readUint32_write; lia).
    change MAX_PAYLOAD_SIZE with 102400.
    destruct (Z.ltb_spec 102400 (byteLength payload)); [lia|].
    assert (Hl : byteLength (V ++ firstn (k - List.length V) payload)
                 = Z.of_nat k).
    { unfold byteLength. rewrite length_app, length_firstn. lia. }
    rewrite Hl.
    destruct (Z.ltb_spec (Z.of_nat k)
                (Z.of_nat (List.length V) + byteLength payload)) as [Hs|Hs].
    + eexists _, _. split; [reflexivity|]. lia.
    + exfalso. unfold byteLength in Hs. lia.
Qed.

Lemma truncated_frame_rejected_witness :
  decodeLengthDelimited TestDoubles.receiptCoder (firstn 1 [x01; x00])
  = Err PrematureEOF
  \/ exists size remaining,
       decodeLengthDelimited TestDoubles.receiptCoder (firstn 1 [x01; x00])
       = Err (BufferTooShort size remaining)
       /\ remaining < size.
Proof.
  apply (truncated_frame_rejected proto.Receipt TestDoubles.receiptCoder
           (proto.mkReceipt None) [x01; x00] 1).
  - reflexivity.
  - cbn. lia.
Defined.

(** ** Lookups and the nonce counter over a run *)

(** X7.  [findMarket] and [findToken] return the element at the given
    index when [0 <= id < length], throw their not-found error on every
    other integer, and never return [undefined]. *)
Theorem findMarket_findToken_bounds :
  (forall (markets : list Market.t) (marketId : Z),
     (0 <= marketId < Z.of_nat (List.length markets) ->
      exists m, Lookup.findMarket markets marketId = Returned (Some m)
                /\ nth_error markets (Z.to_nat marketId) = Some m)
     /\ (~ 0 <= marketId < Z.of_nat (List.length markets) ->
         Lookup.findMarket markets marketId = Thrown (MarketNotFound marketId))
     /\ Lookup.findMarket markets marketId <> Returned None)
  /\ (forall (tokens : list Token.t) (tokenId : Z),
        (0 <= tokenId < Z.of_nat (List.length tokens) ->
         exists t, Lookup.findToken tokens tokenId = Returned (Some t)
                   /\ nth_error tokens (Z.to_nat tokenId) = Some t)
        /\ (~ 0 <= tokenId < Z.of_nat (List.length tokens) ->
            Lookup.findToken tokens tokenId = Thrown (TokenNotFound tokenId))
        /\ Lookup.findToken tokens tokenId <> Returned None).
Proof.
  split; intros l i; unfold Lookup.findMarket, Lookup.findToken;
    destruct (Z.ltb_spec i 0) as [Hn|Hn]; cbn [orb];
    try (split; [lia | split; [reflexivity | discriminate]]);
    destruct (Z.ltb_spec (Z.of_nat (List.length l) - 1) i) as [Hb|Hb];
    try (split; [lia | split; [reflexivity | discriminate]]);
    (assert (Hs : nth_error l (Z.to_nat i) <> None)
       by (apply nth_error_Some; lia));
    destruct (nth_error l (Z.to_nat i)) as [m|]; try congruence;
    (split; [intros _; exists m; split; reflexivity
            | split; [lia | discriminate]]).
Qed.

Lemma findMarket_findToken_bounds_witness :
  exists m,
    Lookup.findMarket [Market.mk "BTCUSDC" 0 1 2 6] 0 = Returned (Some m)
    /\ nth_error [Market.mk "BTCUSDC" 0 1 2 6] (Z.to_nat 0) = Some m.
Proof.
  apply (proj1 (proj1 findMarket_findToken_bounds
                  [Market.mk "BTCUSDC" 0 1 2 6] 0)).
  cbn. lia.
Defined.


Lemma tick_inj (a b : Z) :
  (inject_Z a / 1000 == inject_Z b / 1000)%Q <-> a = b.
Proof.
  split.
  - intros H. unfold Qeq in H. cbn in H. lia.
  - intros ->. reflexivity.
Qed.

Lemma getNonce_same (now : Z) (st : NordUser.NonceState) :
  (NordUser.lastTs st == inject_Z now / 1000)%Q ->
  NordUser.getNonce now st
  = (NordUser.lastNonce st + 1,
     NordUser.mkNonceState (NordUser.lastTs st) (NordUser.lastNonce st + 1)).
Proof.
  intros H. apply getNonce_same_tick. symmetry. exact H.
Qed.

Lemma nonceRun_later_nonces (nows : list Z) : forall (a : Z) st,
  (NordUser.lastTs st == inject_Z a / 1000)%Q ->
  StronglySorted Z.le (a :: nows) ->
  forall nonce, In (a, nonce) (nonceRun nows st) ->
                NordUser.lastNonce st < nonce.
Proof.
  induction nows as [|b rest IH]; intros a st Hst Hs nonce Hin;
    [contradiction|].
  assert (Hab : a <= b).
  { inversion Hs as [|? ? _ Hall]; subst. inversion Hall; subst. assumption. }
  assert (Hs' : StronglySorted Z.le (b :: rest)).
  { inversion Hs; subst. assumption. }
  cbn [nonceRun] in Hin.
  destruct (Z.eq_dec a b) as [<-|Hne].
  - rewrite (getNonce_same a st Hst) in Hin.
    destruct Hin as [Hin|Hin].
    + injection Hin as <-. lia.
    + assert (H := IH a (NordUser.mkNonceState (NordUser.lastTs st)
                            (NordUser.lastNonce st + 1)) Hst Hs' nonce Hin).
      cbn in H. lia.
  - exfalso.
    destruct (NordUser.getNonce b st) as [n st'].
    destruct Hin as [Hin|Hin]; [congruence|].
    (* every later reading is at least [b], hence not [a] *)
    assert (Hall : Forall (Z.le b) rest) by (inversion Hs'; assumption).
    assert (Hrun : forall l s, Forall (Z.le b) l ->
                               forall n', ~ In (a, n') (nonceRun l s)).
    { clear - Hab Hne. induction l as [|c l IHl]; intros s Hl n' Hin';
        [exact Hin'|].
      cbn [nonceRun] in Hin'. destruct (NordUser.getNonce c s) as [m s'].
      inversion Hl; subst.
      destruct Hin' as [E|Hin']; [injection E as E _; lia|].
      exact (IHl s' H2 n' Hin'). }
    exact (Hrun rest st' Hall nonce Hin).
Qed.

(** X8.  Along any sequence of [getNonce] calls whose clock readings do
    not go backwards, from any counter state, no two calls get the same
    pair of clock reading and nonce. *)
Theorem nonces_distinct_under_monotonic_clock (nows : list Z)
  (this : NordUser.NonceState) :
  StronglySorted Z.le nows ->
  NoDup (nonceRun nows this).
Proof.
  revert this. induction nows as [|a rest IH]; intros this Hs;
    [constructor|].
  cbn [nonceRun].
  pose proof (getNonce_records_tick a this) as Ht.
  destruct (NordUser.getNonce a this) as [n st] eqn:E.
  cbn [snd] in Ht.
  assert (Hn : n = NordUser.lastNonce st).
  { unfold NordUser.getNonce in E. injection E as E1 E2. subst st. exact (eq_sym E1). }
  constructor.
  - intros Hin.
    pose proof (nonceRun_later_nonces rest a st Ht Hs n Hin). lia.
  - apply IH. inversion Hs; assumption.
Qed.

Lemma nonces_distinct_under_monotonic_clock_witness :
  NoDup (nonceRun [5000; 5000; 5001; 5001; 7000] NordUser.initial).
Proof.
  apply nonces_distinct_under_monotonic_clock.
  repeat constructor; lia.
Defined.

(** X9.  The timestamp has a resolution of one second and the nonce tick
    one of a millisecond: two actions issued within the same second at
    different milliseconds, the first at a tick the counter has not seen,
    both carry that second as [currentTimestamp] and the nonce 0. *)
Theorem same_second_same_stamp (this : NordUser.NonceState)
  (second a1 a2 b1 b2 : Z) :
  1000 * second <= a1 -> a1 <= a2 -> a2 < b1 -> b1 <= b2 ->
  b2 < 1000 * (second + 1) ->
  ~ (inject_Z a2 / 1000 == NordUser.lastTs this)%Q ->
  let first := NordUser.getNonce a2 this in
  let second_call := NordUser.getNonce b2 (snd first) in
  (NordImpl.getTimestamp a1, fst first) = (second, 0)
  /\ (NordImpl.getTimestamp b1, fst second_call) = (second, 0).
Proof.
  intros H1 H2 H3 H4 H5 Hne first second_call.
  assert (Ta : NordImpl.getTimestamp a1 = second).
  { unfold NordImpl.getTimestamp. symmetry.
    apply (Z.div_unique a1 1000 second (a1 - 1000 * second)); lia. }
  assert (Tb : NordImpl.getTimestamp b1 = second).
  { unfold NordImpl.getTimestamp. symmetry.
    apply (Z.div_unique b1 1000 second (b1 - 1000 * second)); lia. }
  unfold second_call, first.
  rewrite (getNonce_new_tick a2 this Hne). cbn [fst snd].
  rewrite getNonce_new_tick.
  - cbn [fst]. rewrite Ta, Tb. split; reflexivity.
  - cbn [NordUser.lastTs]. intros E. unfold Qeq in E. cbn in E. lia.
Qed.

Lemma same_second_same_stamp_witness :
  (NordImpl.getTimestamp 5000, fst (NordUser.getNonce 5000 NordUser.initial))
  = (5, 0)
  /\ (NordImpl.getTimestamp 5001,
      fst (NordUser.getNonce 5001
             (snd (NordUser.getNonce 5000 NordUser.initial))))
     = (5, 0).
Proof.
  apply (same_second_same_stamp NordUser.initial 5 5000 5000 5001 5001);
    try lia.
  intros H. vm_compute in H. discriminate H.
Defined.


Section SubscriberFacts.
Variable Event : Type.

Lemma tl_skipn (n : nat) (l : list Event) : tl (skipn n l) = skipn (S n) l.
Proof.
  revert l. induction n as [|n IH]; intros [|x l]; try reflexivity.
  cbn [skipn]. rewrite IH. destruct l; reflexivity.
Qed.

Lemma tl_app_nonempty (a b : list Event) : a <> [] -> tl (a ++ b) = tl a ++ b.
Proof. destruct a; [congruence | reflexivity]. Qed.

(** X10.  After any sequence of messages the subscriber's buffer is the
    last [maxBufferLen] events received (all of them while there are
    fewer), in order of arrival; it never holds more than [maxBufferLen]
    events, and none when [maxBufferLen] is not positive; the default
    limit is 10000. *)
Theorem subscriber_keeps_latest (maxBufferLen : option Z)
  (events : list Event) :
  let limit := match maxBufferLen with Some n => n | None => 10000 end in
  let this := received Event maxBufferLen events in
  Subscriber.maxBufferLen Event this = limit
  /\ Subscriber.buffer Event this
     = skipn (List.length events - Z.to_nat limit) events
  /\ Z.of_nat (List.length (Subscriber.buffer Event this)) <= Z.max 0 limit.
Proof.
  intros limit this. unfold this, received.
  assert (Hk : fold_left (Subscriber.onMessage Event) events
                 (Subscriber.create Event maxBufferLen)
               = Subscriber.mk Event
                   (skipn (List.length events - Z.to_nat limit) events) limit).
  { induction events as [|e evs IH] using rev_ind.
    - cbn. unfold Subscriber.create. fold limit. reflexivity.
    - rewrite fold_left_app. cbn [fold_left]. rewrite IH.
      unfold Subscriber.onMessage.
      cbn [Subscriber.buffer Subscriber.maxBufferLen].
      rewrite !length_app, length_skipn. cbn [List.length].
      set (L := List.length evs). set (m := Z.to_nat limit).
      destruct (Z.ltb_spec limit (Z.of_nat (L - (L - m) + 1))) as [Hc|Hc].
      + f_equal.
        destruct (Nat.eq_dec m 0) as [Em|Em].
        * rewrite Em, !Nat.sub_0_r. unfold L.
          rewrite skipn_all. cbn [app tl].
          rewrite skipn_all2 by (rewrite length_app; cbn; lia). reflexivity.
        * assert (HLm : (m <= L)%nat) by lia.
          rewrite tl_app_nonempty.
          -- rewrite tl_skipn, skipn_app.
             replace (L + 1 - m)%nat with (S (L - m)) by lia.
             replace (S (L - m) - List.length evs)%nat with 0%nat
               by (fold L; lia).
             reflexivity.
          -- intros E. apply (f_equal (@List.length Event)) in E.
             rewrite length_skipn in E. cbn in E. fold L in E. lia.
      + f_equal.
        assert (HLm : (L < m)%nat) by lia.
        replace (L - m)%nat with 0%nat by lia.
        replace (L + 1 - m)%nat with 0%nat by lia. reflexivity. }
  rewrite Hk. cbn [Subscriber.buffer Subscriber.maxBufferLen].
  split; [reflexivity|]. split; [reflexivity|].
  rewrite length_skipn. lia.
Qed.

End SubscriberFacts.

(** ** Block queries *)

Section QueryFacts.
Context (coder : proto.MessageFns proto.Action).
Import NordQueries.

Lemma decodeActions_acc (l : list RollmanActionInfo.t) :
  forall acc,
    decodeActions coder l acc
    = match decodeActions coder l [] with
      | Ok r => Ok (acc ++ r)
      | Err e => Err e
      end.
Proof.
  induction l as [|x l IH]; intros acc; cbn [decodeActions].
  - rewrite app_nil_r. reflexivity.
  - destruct (decodeLengthDelimited coder (RollmanActionInfo.action_pb x))
      as [a|e]; cbn [bind]; [|reflexivity].
    rewrite (IH (acc ++ _)), (IH ([] ++ _)).
    destruct (decodeActions coder l []); [|reflexivity].
    rewrite <- app_assoc. reflexivity.
Qed.

Lemma decodeActions_cons (x : RollmanActionInfo.t) (l : list RollmanActionInfo.t) :
  decodeActions coder (x :: l) []
  = match decodeLengthDelimited coder (RollmanActionInfo.action_pb x) with
    | Ok a =>
        match decodeActions coder l [] with
        | Ok r => Ok (ActionInfo.mk (RollmanActionInfo.action_id x) a :: r)
        | Err e => Err e
        end
    | Err e => Err e
    end.
Proof.
  cbn [decodeActions].
  destruct (decodeLengthDelimited coder (RollmanActionInfo.action_pb x));
    cbn [bind]; [|reflexivity].
  rewrite decodeActions_acc. reflexivity.
Qed.

(** X11.  [queryBlock] returns the actions of a block in order under
    their ids: a block of length-delimited encodings comes back as the
    encoded actions; the block number and the action ids of a successful
    query are those of the response; and the first action that cannot be
    decoded fails the whole query with its error. *)
Theorem queryBlock_decodes_every_action :
  (* a block of framed actions comes back as those actions, in order *)
  (forall block_number infos expected,
     Forall2 (framed coder) infos expected ->
     queryBlock coder (Ok (RollmanBlockResponse.mk block_number infos))
     = Ok (BlockResponse.mk block_number expected))
  (* one undecodable action fails the whole query *)
  /\ (forall block_number before bad after e,
        Forall (fun info =>
                  isOk (decodeLengthDelimited coder
                          (RollmanActionInfo.action_pb info)) = true) before ->
        decodeLengthDelimited coder (RollmanActionInfo.action_pb bad) = Err e ->
        queryBlock coder
          (Ok (RollmanBlockResponse.mk block_number (before ++ bad :: after)))
        = Err e)
  (* a successful query keeps the block number and the action ids *)
  /\ (forall rollman response,
        queryBlock coder (Ok rollman) = Ok response ->
        BlockResponse.block_number response
        = RollmanBlockResponse.block_number rollman
        /\ map ActionInfo.action_id (BlockResponse.actions response)
           = map RollmanActionInfo.action_id
               (RollmanBlockResponse.actions rollman)).
Proof.
  split; [|split].
  - intros bn infos expected HF. unfold queryBlock. cbn [bind RollmanBlockResponse.actions RollmanBlockResponse.block_number].
    assert (H : decodeActions coder infos [] = Ok expected).
    { induction HF as [|info ex infos expected [Hid [Henc Hrt]] _ IH];
        [reflexivity|].
      rewrite decodeActions_cons.
      rewrite (length_delimited_roundtrip_generic coder _ _ Hrt Henc), IH.
      rewrite Hid. destruct ex; reflexivity. }
    rewrite H. reflexivity.
  - intros bn before bad after e Hb He. unfold queryBlock.
    cbn [bind RollmanBlockResponse.actions RollmanBlockResponse.block_number].
    assert (H : decodeActions coder (before ++ bad :: after) [] = Err e).
    { induction Hb as [|x l Hx _ IH]; cbn [app]; rewrite decodeActions_cons.
      - rewrite He. reflexivity.
      - destruct (decodeLengthDelimited coder (RollmanActionInfo.action_pb x));
          [|discriminate Hx].
        rewrite IH. reflexivity. }
    rewrite H. reflexivity.
  - intros [bn infos] response. unfold queryBlock.
    cbn [bind RollmanBlockResponse.actions RollmanBlockResponse.block_number].
    destruct (decodeActions coder infos []) as [r|e] eqn:E; cbn [bind];
      [|discriminate].
    intros H. injection H as <-. cbn. split; [reflexivity|].
    revert r E. induction infos as [|x l IH]; intros r E.
    + cbn in E. injection E as <-. reflexivity.
    + rewrite decodeActions_cons in E.
      destruct (decodeLengthDelimited coder (RollmanActionInfo.action_pb x));
        [|discriminate E].
      destruct (decodeActions coder l []) as [r'|]; [|discriminate E].
      injection E as <-. cbn. f_equal. apply IH. reflexivity.
Qed.

End QueryFacts.

Lemma queryBlock_decodes_every_action_witness :
  NordQueries.queryBlock TestDoubles.actionCoder
    (Ok (NordQueries.RollmanBlockResponse.mk 9
           [NordQueries.RollmanActionInfo.mk 1 (x11 :: repeat x00 17)]))
  = Ok (NordQueries.BlockResponse.mk 9
          [NordQueries.ActionInfo.mk 1 (proto.mkAction 0 0 None)]).
Proof.
  apply (proj1 (queryBlock_decodes_every_action TestDoubles.actionCoder)).
  constructor; [|constructor].
  split; [reflexivity|]. split; [reflexivity|].
  intros payload Hp. vm_compute in Hp. injection Hp as <-. reflexivity.
Defined.

(** ** The user object *)

Lemma findMarket_in_range (markets : list Market.t) (marketId : Z) :
  0 <= marketId < Z.of_nat (List.length markets) ->
  exists m, Lookup.findMarket markets marketId = Returned (Some m)
            /\ nth_error markets (Z.to_nat marketId) = Some m.
Proof.
  intros Hr. unfold Lookup.findMarket.
  destruct (Z.ltb_spec marketId 0); [lia|].
  destruct (Z.ltb_spec (Z.of_nat (List.length markets) - 1) marketId); [lia|].
  cbn [orb].
  assert (Hs : nth_error markets (Z.to_nat marketId) <> None)
    by (apply nth_error_Some; lia).
  destruct (nth_error markets (Z.to_nat marketId)) as [m|]; [|congruence].
  exists m. split; reflexivity.
Qed.

Lemma findMarket_out_of_range (markets : list Market.t) (marketId : Z) :
  ~ 0 <= marketId < Z.of_nat (List.length markets) ->
  Lookup.findMarket markets marketId = Thrown (MarketNotFound marketId).
Proof.
  intros Hr. unfold Lookup.findMarket.
  destruct (Z.ltb_spec marketId 0); [reflexivity|].
  destruct (Z.ltb_spec (Z.of_nat (List.length markets) - 1) marketId);
    [reflexivity | lia].
Qed.


Section UserFacts.
Context (actionCoder : proto.MessageFns proto.Action)
        (receiptCoder : proto.MessageFns proto.Receipt).
Variable makeSendHttp : string -> bytes -> result bytes.
Variable Books : Type.
Variable emptyBooks : Books.
Variable loadInfo : list Z -> Books -> result Books.


(** X12.  [NordUser.placeOrder] with a market id outside the market list
    fails with the not-found error and leaves the user object as it was;
    with a known market the nonce counter has advanced when the call
    returns, whatever the outcome, also when the call fails for want of a
    session ("No session") and nothing was built or sent. *)
Theorem placeOrder_consumes_nonce (now1 now2 : Z)
  (params : NordUserApi.PlaceOrderArgs.t) (this : NordUserApi.t Books) :
  let marketId := NordUserApi.PlaceOrderArgs.marketId params in
  let markets := NordUserApi.markets (NordUserApi.nord Books this) in
  (~ 0 <= marketId < Z.of_nat (List.length markets) ->
   NordUserApi.placeOrder actionCoder receiptCoder makeSendHttp Books
        now1 now2 params this = (Thrown (MarketNotFound marketId), this))
  /\ (0 <= marketId < Z.of_nat (List.length markets) ->
      snd (NordUserApi.placeOrder actionCoder receiptCoder makeSendHttp Books
        now1 now2 params this)
      = NordUserApi.withNonce Books this
          (snd (NordUser.getNonce now2 (NordUserApi.nonce Books this)))
      /\ (NordUserApi.sessionId Books this = None ->
          fst (NordUserApi.placeOrder actionCoder receiptCoder makeSendHttp Books
        now1 now2 params this)
          = Thrown (OptionalEmpty "No session"))).
Proof.
  intros marketId markets. split.
  - intros Hr. unfold NordUserApi.placeOrder. fold marketId markets.
    rewrite (findMarket_out_of_range markets marketId Hr). reflexivity.
  - intros Hr. unfold NordUserApi.placeOrder. fold marketId markets.
    destruct (findMarket_in_range markets marketId Hr) as [m [Hm _]].
    rewrite Hm.
    destruct (NordUser.getNonce now2 (NordUserApi.nonce Books this))
      as [n st]. cbn [snd].
    destruct (NordUserApi.sessionId Books this) as [sid|];
      cbn [Lookup.optExpect].
    + split; [reflexivity | discriminate].
    + split; [reflexivity | reflexivity].
Qed.


End UserFacts.

Lemma placeOrder_consumes_nonce_witness :
  let this :=
    NordUserApi.mkUser unit
      (NordUserApi.mkNord "http://localhost" [Market.mk "BTCUSDC" 0 1 2 6] [])
      (TestDoubles.walletSigner [xaa; x1b]) (TestDoubles.sessionSigner [xaa])
      tt None None None NordUser.initial in
  let params :=
    NordUserApi.PlaceOrderArgs.mk 0 Types.Ask Types.Limit false
      (Some (ofZ 1)) (Some (ofZ 1)) None None in
  NordUserApi.placeOrder TestDoubles.actionCoder TestDoubles.receiptCoder
    (fun _ => TestDoubles.respondWith (proto.mkReceipt None)) unit
    5000 5000 params this
  = (Thrown (OptionalEmpty "No session"),
     NordUserApi.withNonce unit this (snd (NordUser.getNonce 5000 NordUser.initial))).
Proof.
  intros this params.
  destruct (proj2 (placeOrder_consumes_nonce TestDoubles.actionCoder
                     TestDoubles.receiptCoder
                     (fun _ => TestDoubles.respondWith (proto.mkReceipt None))
                     unit 5000 5000 params this)) as [Hs Hf];
    [cbn; lia|].
  specialize (Hf eq_refl).
  rewrite (surjective_pairing (NordUserApi.placeOrder _ _ _ _ _ _ _ _)).
  rewrite Hs, Hf. reflexivity.
Defined.

